(** * Trait validation pipeline ([validate_traits.py])

    A shallow embedding of the validation script: the pandas tables it
    manipulates, the 2019 schema patch, the in-situ merge, the derivation of
    leaf chlorophyll content, and [validate_data] with its three
    stratifications.

    Conventions.
    - A pandas [DataFrame] is a list of column labels and a list of rows;
      a row is a finite map from labels to cells.
    - Floating-point cells are IEEE 754 binary64 values ([spec_float] with
      precision 53 and maximal exponent 1024), which is what a Python
      [float] and a numpy [float64] are.
    - A Python exception is an [Err] result; code that mutates a frame in
      place runs in a monad over a heap of frames and a trace of the calls
      made to the outside (files written, metric computations requested).
    - The helpers imported from [utils] are not part of the sources; they
      are parameters of the development. *)

From Stdlib Require Import ZArith String Ascii SpecFloat Lia Permutation.
From stdpp Require Import base option list gmap strings pretty.

Local Open Scope Z_scope.
Local Open Scope string_scope.
Local Open Scope list_scope.

(** ** Python strings *)

Module PyStr.

(** [s.replace(old, new)]: every non-overlapping occurrence of [old], from
    the left. [skip] counts the characters of a matched occurrence that are
    still to be dropped. *)
Fixpoint replace_from (old new : string) (skip : nat) (s : string) : string :=
  match s with
  | EmptyString =>
      match old with EmptyString => new | _ => EmptyString end
  | String c s' =>
      match skip with
      | S k => replace_from old new k s'
      | O =>
          match old with
          | EmptyString => new +:+ String c (replace_from old new O s')
          | _ =>
              if String.prefix old s
              then new +:+ replace_from old new (String.length old - 1) s'
              else String c (replace_from old new O s')
          end
      end
  end.

Definition replace (old new s : string) : string := replace_from old new O s.

(** [s.startswith(p)] *)
Definition startswith (p s : string) : bool := String.prefix p s.

(** [s.split(sep)] for a one-character separator. *)
Fixpoint split (sep : ascii) (s : string) : list string :=
  match s with
  | EmptyString => [EmptyString]
  | String c s' =>
      if Ascii.eqb c sep then EmptyString :: split sep s'
      else match split sep s' with
           | w :: ws => String c w :: ws
           | [] => [String c EmptyString]
           end
  end.

(** [sep.join(parts)] *)
Definition join (sep : string) (parts : list string) : string :=
  String.concat sep parts.

End PyStr.

(** ** Cells, exceptions and results *)

Definition prec : Z := 53.
Definition emax : Z := 1024.

Definition float_of_Z (z : Z) : spec_float := binary_normalize prec emax z 0 false.
Definition fdiv (x y : spec_float) : spec_float := SFdiv prec emax x y.
Definition fmul (x y : spec_float) : spec_float := SFmul prec emax x y.

Inductive cell :=
  | CNum (f : spec_float)
  | CInt (z : Z)
  | CStr (s : string)
  | CBool (b : bool)
  | CNone.

#[global] Instance spec_float_eq_dec : EqDecision spec_float.
Proof. solve_decision. Defined.

#[global] Instance cell_eq_dec : EqDecision cell.
Proof. solve_decision. Defined.

(** [pd.isna]: [None] and NaN are missing, infinities are not. *)
Definition isna (c : cell) : bool :=
  match c with
  | CNone => true
  | CNum S754_nan => true
  | _ => false
  end.


Inductive exn :=
  | KeyError (key : string)
  | TypeError (msg : string)
  | ValueError (msg : string)
  | IndexError (msg : string)
  | AttributeError (msg : string)
  | Raised (msg : string).

Inductive result (A : Type) :=
  | Ok (a : A)
  | Err (e : exn).
Arguments Ok {A} a.
Arguments Err {A} e.

#[global] Instance result_ret : MRet result := λ A a, Ok a.
#[global] Instance result_bind : MBind result := λ A B f m,
  match m with
  | Ok a => f a
  | Err e => Err e
  end.
#[global] Instance result_fmap : FMap result := λ A B f m,
  match m with
  | Ok a => Ok (f a)
  | Err e => Err e
  end.

Definition is_ok {A} (r : result A) : bool :=
  match r with Ok _ => true | Err _ => false end.


(** Left-to-right traversal that stops at the first exception. *)
Fixpoint traverse {A B} (f : A → result B) (l : list A) : result (list B) :=
  match l with
  | [] => Ok []
  | x :: l' => y ← f x; ys ← traverse f l'; Ok (y :: ys)
  end.

(** ** Series arithmetic *)

Definition to_float (c : cell) : option spec_float :=
  match c with
  | CNum f => Some f
  | CInt z => Some (float_of_Z z)
  | CBool b => Some (float_of_Z (if b then 1 else 0))
  | CStr _ | CNone => None
  end.

(** [a / b] on numeric columns: true division in binary64; a zero divisor
    yields an infinity or NaN, never an exception. *)
Definition cell_truediv (a b : cell) : result cell :=
  match to_float a, to_float b with
  | Some x, Some y => Ok (CNum (fdiv x y))
  | _, _ => Err (TypeError "unsupported operand type(s) for /")
  end.

(** [a * k] for an integer literal [k]. *)
Definition cell_mul_int (k : Z) (a : cell) : result cell :=
  match a with
  | CNum f => Ok (CNum (fmul f (float_of_Z k)))
  | CInt z => Ok (CInt (z * k))
  | CBool b => Ok (CInt ((if b then 1 else 0) * k))
  | CStr _ | CNone => Err (TypeError "unsupported operand type(s) for *")
  end.

Fixpoint series_truediv (a b : list cell) : result (list cell) :=
  match a, b with
  | x :: a', y :: b' =>
      q ← cell_truediv x y; qs ← series_truediv a' b'; Ok (q :: qs)
  | _, _ => Ok []
  end.

Definition series_mul_int (a : list cell) (k : Z) : result (list cell) :=
  traverse (cell_mul_int k) a.

(** ** Data frames *)

Abbreviation row := (gmap string cell).

Record DataFrame := Frame { columns : list string; rows : list row }.

Definition cell_at (c : string) (r : row) : cell := default CNone (r !! c).

(** [len(df)] *)
Definition nrows (d : DataFrame) : nat := length (rows d).

(** [df[c]]: the column as a sequence, in row order. *)
Definition getitem (d : DataFrame) (c : string) : result (list cell) :=
  if decide (c ∈ columns d) then Ok (cell_at c <$> rows d) else Err (KeyError c).

Definition with_column (c : string) (cols : list string) : list string :=
  if decide (c ∈ cols) then cols else cols ++ [c].

(** [df[c] = values] *)
Definition setitem (d : DataFrame) (c : string) (vals : list cell) : result DataFrame :=
  if decide (length vals = length (rows d))
  then Ok (Frame (with_column c (columns d))
                 (zip_with (λ r v, <[c:=v]> r) (rows d) vals))
  else Err (ValueError "Length of values does not match length of index").

(** [df[c] = v] for a scalar [v] *)
Definition setitem_scalar (d : DataFrame) (c : string) (v : cell) : DataFrame :=
  Frame (with_column c (columns d)) ((λ r, <[c:=v]> r) <$> rows d).

(** [df.drop(columns=cs)] *)
Definition drop_columns (cs : list string) (d : DataFrame) : result DataFrame :=
  match filter (λ c, c ∉ columns d) cs with
  | c :: _ => Err (KeyError c)
  | [] => Ok (Frame (filter (λ c, c ∉ cs) (columns d))
                    ((λ r, foldr delete r cs) <$> rows d))
  end.

(** A row is kept by [dropna(subset=cs)] when none of its [cs] cells is
    missing. *)
Definition complete_on (cs : list string) (r : row) : bool :=
  forallb (λ c, negb (isna (cell_at c r))) cs.

(** [df.dropna(subset=cs)] *)
Definition dropna (cs : list string) (d : DataFrame) : result DataFrame :=
  match filter (λ c, c ∉ columns d) cs with
  | c :: _ => Err (KeyError c)
  | [] => Ok (Frame (columns d) (filter (λ r, complete_on cs r) (rows d)))
  end.

(** Order of group keys: numbers before strings, numbers by value, strings
    lexicographically. *)
Definition cell_leb (a b : cell) : bool :=
  match a, b with
  | CStr x, CStr y => String.leb x y
  | CStr _, _ => false
  | _, CStr _ => true
  | CInt x, CInt y => Z.leb x y
  | _, _ =>
      match to_float a, to_float b with
      | Some x, Some y =>
          match SFcompare x y with Some Gt => false | _ => true end
      | _, _ => true
      end
  end.

Fixpoint insert_sorted (x : cell) (l : list cell) : list cell :=
  match l with
  | [] => [x]
  | y :: l' => if cell_leb x y then x :: l else y :: insert_sorted x l'
  end.

Definition sort_cells (l : list cell) : list cell := foldr insert_sorted [] l.

(** The distinct non-missing values of a column. *)
Definition distinct_values (vals : list cell) : list cell :=
  remove_dups (filter (λ v, isna v = false) vals).

(** [series.nunique()] *)
Definition nunique (vals : list cell) : nat := length (distinct_values vals).

(** Keys of [groupby]: the distinct non-missing values, sorted. *)
Definition group_keys (vals : list cell) : list cell :=
  sort_cells (distinct_values vals).

Definition select_rows (by_ : string) (k : cell) (d : DataFrame) : DataFrame :=
  Frame (columns d) (filter (λ r, cell_at by_ r = k) (rows d)).

(** Iterating [df.groupby(by=c)]: one (key, sub-frame) pair per key, each
    sub-frame holding the rows of that key in their original order. *)
Definition groupby (by_ : string) (d : DataFrame) : result (list (cell * DataFrame)) :=
  vals ← getitem d by_;
  Ok ((λ k, (k, select_rows by_ k d)) <$> group_keys vals).

(** *** [pd.merge(left, right, on=keys)] (inner join) *)

Definition key_of (on : list string) (r : row) : list cell :=
  (λ c, cell_at c r) <$> on.

Definition rename_overlap (on other : list string) (suffix c : string) : string :=
  if decide (c ∈ on) then c
  else if decide (c ∈ other) then c +:+ suffix else c.

Definition merged_columns (on lcols rcols : list string) : list string :=
  (rename_overlap on rcols "_x" <$> lcols)
  ++ (rename_overlap on lcols "_y" <$> filter (λ c, c ∉ on) rcols).

Definition merge_rows (on lcols rcols : list string) (l r : row) : row :=
  list_to_map
    (((λ c, (rename_overlap on rcols "_x" c, cell_at c l)) <$> lcols)
     ++ ((λ c, (rename_overlap on lcols "_y" c, cell_at c r))
           <$> filter (λ c, c ∉ on) rcols)).

Definition matches (on : list string) (l : row) (right : list row) : list row :=
  filter (λ r, key_of on r = key_of on l) right.

Definition pd_merge (left right : DataFrame) (on : list string) : result DataFrame :=
  match filter (λ c, c ∉ columns left) on ++ filter (λ c, c ∉ columns right) on with
  | c :: _ => Err (KeyError c)
  | [] =>
      Ok (Frame (merged_columns on (columns left) (columns right))
                (rows left ≫= λ l,
                   merge_rows on (columns left) (columns right) l
                     <$> matches on l (rows right)))
  end.

(** ** Effects: a heap of frames and a trace of outside calls *)

(** [plt.subplots(ncols=n)] hands back the Axes of the new figure. With the
    default [squeeze=True] a single subplot comes back as a bare [Axes]
    object, several as an array; zero columns are rejected. *)
Inductive axes :=
  | AxesOne
  | AxesArray (n : nat).

Definition plt_subplots (ncols : nat) : result axes :=
  match ncols with
  | O => Err (ValueError "Number of columns must be a positive integer, not 0")
  | S O => Ok AxesOne
  | _ => Ok (AxesArray ncols)
  end.

(** [ax[idx]] *)
Definition ax_getitem (ax : axes) (idx : nat) : result unit :=
  match ax with
  | AxesOne => Err (TypeError "'Axes' object is not subscriptable")
  | AxesArray n =>
      if decide (idx < n)%nat then Ok tt
      else Err (IndexError "index out of bounds")
  end.

Record TraitLimits := Limits { trait_min : Z; trait_max : Z }.

Inductive event :=
  | PlotPrediction (true_vals pred_vals : list cell)
  | Savefig (path : string)
  | StatsCsv (path : string) (index : bool) (table : list row)
  | FrameCsv (path : string) (table : DataFrame)
  | Mkdir (path : string)
  | ConfusionMatrix (table : DataFrame) (out_dir : string)
  | Artifact (path : string).

Record world := World { heap : list DataFrame; trace : list event }.

Definition M (A : Type) : Type := world → world * result A.

#[global] Instance M_ret : MRet M := λ A a w, (w, Ok a).
#[global] Instance M_bind : MBind M := λ A B f m w,
  match m w with
  | (w', Ok a) => f a w'
  | (w', Err e) => (w', Err e)
  end.

Definition lift {A} (r : result A) : M A := λ w, (w, r).

Definition emit (e : event) : M unit :=
  λ w, (World (heap w) (trace w ++ [e]), Ok tt).

(** A new frame object; its reference is its position in the heap. *)
Definition alloc (d : DataFrame) : M nat :=
  λ w, (World (heap w ++ [d]) (trace w), Ok (length (heap w))).

Definition load (r : nat) : M DataFrame :=
  λ w, (w, match heap w !! r with
           | Some d => Ok d
           | None => Err (Raised "no such object")
           end).

(** In-place update of the frame behind a reference. *)
Definition store (r : nat) (d : DataFrame) : M unit :=
  λ w, (World (<[r:=d]> (heap w)) (trace w), Ok tt).

(** [df.copy()] *)
Definition copy (r : nat) : M nat := d ← load r; alloc d.

Fixpoint emit_all (es : list event) : M unit :=
  match es with
  | [] => mret tt
  | e :: es' => emit e;; emit_all es'
  end.

(** [out_dir.joinpath(name)] *)
Definition joinpath (dir name : string) : string := dir +:+ "/" +:+ name.

(** ** [validate_data] *)

Section Validation.

(** The helpers of [utils] used by [validate_data]. [plot_prediction]
    returns the dictionary of error statistics; [bbch_confusion_matrix]
    receives the working frame by reference, so it hands back the frame as
    it leaves it, with the paths of the files it wrote. *)
Variable plot_prediction :
  list cell → list cell → string → string → TraitLimits → result row.
Variable assign_macro_stages : cell → result cell.
Variable bbch_confusion_matrix :
  DataFrame → string → result (DataFrame * list string).

Definition call_plot_prediction
    (true_vals pred_vals : list cell) (trait_name trait_unit : string)
    (trait_limits : TraitLimits) : M row :=
  emit (PlotPrediction true_vals pred_vals);;
  lift (plot_prediction true_vals pred_vals trait_name trait_unit trait_limits).

(** [trait.replace(" ", "-")], the stem of every output file name. *)
Definition file_stem (trait : string) : string := PyStr.replace " " "-" trait.

Definition bbch_column : string := "BBCH Rating (Macro-Stages)".

(** Lines 52-53: the working copy, without the rows whose reference value
    is missing. *)
Definition working_copy (_df : nat) (trait : string) : M nat :=
  df ← copy _df;
  d ← load df;
  d ← lift (dropna [trait] d);
  store df d;;
  mret df.

(** Lines 55-90: both retrievals against the whole sample. *)
Definition full_sample (df : nat) (out_dir trait trait_name trait_unit : string)
    (trait_limits : TraitLimits) : M unit :=
  ax ← lift (plt_subplots 2);
  df_all ← copy df;
  df_pheno ← copy df;
  d ← load df_all;
  t ← lift (getitem d trait);
  p ← lift (getitem d (trait +:+ "_all"));
  lift (ax_getitem ax 0);;
  error_stats_all ← call_plot_prediction t p trait_name trait_unit trait_limits;
  let error_stats_all := <["phenology_considered":=CBool false]> error_stats_all in
  lift (ax_getitem ax 0);;
  d ← load df_pheno;
  t ← lift (getitem d trait);
  p ← lift (getitem d (trait +:+ " (Phenology)"));
  lift (ax_getitem ax 1);;
  error_stats_pheno ← call_plot_prediction t p trait_name trait_unit trait_limits;
  let error_stats_pheno := <["phenology_considered":=CBool true]> error_stats_pheno in
  lift (ax_getitem ax 1);;
  emit (Savefig (joinpath out_dir (file_stem trait +:+ "_scatterplot.png")));;
  emit (StatsCsv (joinpath out_dir (file_stem trait +:+ "_error_stats.csv")) true
          [error_stats_all; error_stats_pheno]).

(** Lines 94-97: the macro stage of every in-situ BBCH rating. *)
Definition label_macro_stages (df : nat) : M unit :=
  d ← load df;
  ratings ← lift (getitem d "BBCH Rating");
  stages ← lift (traverse assign_macro_stages ratings);
  d ← lift (setitem d bbch_column stages);
  store df d.

(** The body of the loops at lines 103-115 and 131-143. *)
Fixpoint stage_loop (trait pred_col trait_name trait_unit : string)
    (trait_limits : TraitLimits) (ax : axes) (idx : nat)
    (groups : list (cell * DataFrame)) : M (list row) :=
  match groups with
  | [] => mret []
  | (macro_stage, df_stage) :: groups' =>
      t ← lift (getitem df_stage trait);
      p ← lift (getitem df_stage pred_col);
      lift (ax_getitem ax idx);;
      err_stats ← call_plot_prediction t p trait_name trait_unit trait_limits;
      lift (ax_getitem ax idx);;
      let err_stats := <["phase":=macro_stage]> err_stats in
      rest ← stage_loop trait pred_col trait_name trait_unit trait_limits
               ax (S idx) groups';
      mret (err_stats :: rest)
  end.

(** Lines 100-125 and 128-153: one stratification by macro stage. The
    groups are those of the [groupby] object created at line 99, which reads
    the working frame when it is iterated. *)
Definition by_stage (df : nat) (n_macro_stages : nat)
    (out_dir trait pred_col trait_name trait_unit : string)
    (trait_limits : TraitLimits) (png csv : string) : M unit :=
  ax ← lift (plt_subplots n_macro_stages);
  d ← load df;
  df_stages ← lift (groupby "Macro-Stage" d);
  err_stats_list ← stage_loop trait pred_col trait_name trait_unit trait_limits
                     ax O df_stages;
  emit (Savefig (joinpath out_dir (file_stem trait +:+ png)));;
  emit (StatsCsv (joinpath out_dir (file_stem trait +:+ csv)) false err_stats_list).

(** Lines 92-157: the two stratifications by macro stage and the confusion
    matrix. *)
Definition stage_validation (df : nat) (out_dir trait trait_name trait_unit : string)
    (trait_limits : TraitLimits) : M unit :=
  label_macro_stages df;;
  d ← load df;
  macro_stage ← lift (getitem d "Macro-Stage");
  let n_macro_stages := nunique macro_stage in
  lift (groupby "Macro-Stage" d);;
  by_stage df n_macro_stages out_dir trait (trait +:+ " (Phenology)")
    trait_name trait_unit trait_limits
    "_scatterplot_pheno_phases.png" "_errors_pheno_phases.csv";;
  by_stage df n_macro_stages out_dir trait (trait +:+ "_all")
    trait_name trait_unit trait_limits
    "_scatterplot_pheno_phases_all.png" "_errors_pheno_phases_all.csv";;
  d ← load df;
  emit (ConfusionMatrix d out_dir);;
  '(d, written) ← lift (bbch_confusion_matrix d out_dir);
  store df d;;
  emit_all (Artifact <$> written).

Definition validate_data (_df : nat) (out_dir trait trait_name trait_unit : string)
    (trait_limits : TraitLimits) : M unit :=
  df ← working_copy _df trait;
  full_sample df out_dir trait trait_name trait_unit trait_limits;;
  stage_validation df out_dir trait trait_name trait_unit trait_limits.

End Validation.

(** ** The loader: year-specific schema patch (lines 174-198) *)

Section Loader.

(** [str(x)] of a float cell; Python's shortest-round-trip printing is not
    modelled. *)
Variable repr_float : spec_float → string.

Definition py_str (c : cell) : string :=
  match c with
  | CStr s => s
  | CInt z => pretty z
  | CBool true => "True"
  | CBool false => "False"
  | CNone => "None"
  | CNum f => repr_float f
  end.

(** [lambda x: '_'.join(str(x).split('_')[0:2])] *)
Definition point_id_of (x : cell) : cell :=
  CStr (PyStr.join "_" (take 2 (PyStr.split "_" (py_str x)))).

(** [df.name]: attribute access to a column. *)
Definition getattr (d : DataFrame) (name : string) : result (list cell) :=
  if decide (name ∈ columns d) then Ok (cell_at name <$> rows d)
  else Err (AttributeError name).

Definition patch_lai (year : Z) (lai : DataFrame) : result DataFrame :=
  if decide (year = 2019) then
    let lai := setitem_scalar lai "gdd_cumsum" (CInt 999) in
    plot ← getattr lai "Plot";
    lai ← setitem lai "point_id" (point_id_of <$> plot);
    field ← getattr lai "field";
    lai ← setitem lai "parcel" field;
    let lai := setitem_scalar lai "genotype" (CStr "Arnold") in
    let lai := setitem_scalar lai "location" (CStr "SwissFutureFarm") in
    Ok lai
  else Ok lai.

Definition patch_ccc (year : Z) (ccc : DataFrame) : result DataFrame :=
  if decide (year = 2019) then
    let ccc := setitem_scalar ccc "gdd_cumsum" (CInt 999) in
    plot ← getattr ccc "Plot";
    ccc ← setitem ccc "point_id" (point_id_of <$> plot);
    field ← getattr ccc "field";
    ccc ← setitem ccc "parcel" field;
    let ccc := setitem_scalar ccc "genotype" (CStr "Arnold") in
    let ccc := setitem_scalar ccc "location" (CStr "SwissFutureFarm") in
    vals ← getitem ccc "CCC [g/m2]";
    setitem ccc "ccc" vals
  else Ok ccc.

(** [pd.concat(frames)]: the rows of all frames, the union of their
    columns in order of first appearance. *)
Definition pd_concat (frames : list DataFrame) : DataFrame :=
  Frame (remove_dups (frames ≫= columns)) (frames ≫= rows).



End Loader.

(** ** Joining and deriving leaf chlorophyll content (lines 244-271) *)

Definition insitu_keys : list string :=
  ["point_id"; "gdd_cumsum"; "parcel"; "location"].

(** Lines 245-261: the in-situ table of [cab]. *)
Definition insitu_cab (lai_all ccc_all : DataFrame) : result DataFrame :=
  d ← pd_merge lai_all ccc_all insitu_keys;
  v ← getitem d "date_x";
  d ← setitem d "date" v;
  d ← drop_columns ["date_x"; "date_y"] d;
  v ← getitem d "lai_x";
  d ← setitem d "lai" v;
  d ← drop_columns ["lai_x"; "lai_y"] d;
  ccc ← getitem d "ccc";
  lai ← getitem d "lai";
  q ← series_truediv ccc lai;
  cab ← series_mul_int q 100;
  setitem d "cab" cab.

Definition ccc_name (lai_col : string) : string := PyStr.replace "lai" "ccc" lai_col.
Definition cab_name (lai_col : string) : string := PyStr.replace "lai" "cab" lai_col.

(** [[col for col in inv_res_df.columns if col.startswith('lai')]] *)
Definition lai_columns (inv : DataFrame) : list string :=
  filter (λ c, PyStr.startswith "lai" c) (columns inv).

(** Lines 267-271, for the columns from position [idx] on. *)
Fixpoint cab_loop (ccc_cols : list string) (idx : nat) (lai_cols : list string)
    (inv : DataFrame) : result DataFrame :=
  match lai_cols with
  | [] => Ok inv
  | lai_col :: rest =>
      let cab_col := cab_name lai_col in
      ccc_col ← match ccc_cols !! idx with
                | Some c => Ok c
                | None => Err (IndexError "list index out of range")
                end;
      ccc ← getitem inv ccc_col;
      lai ← getitem inv lai_col;
      q ← series_truediv ccc lai;
      cab ← series_mul_int q 100;
      inv ← setitem inv cab_col cab;
      cab_loop ccc_cols (S idx) rest inv
  end.

(** Lines 262-271: a [cab] column for every retrieval configuration. *)
Definition inversion_cab (inv : DataFrame) : result DataFrame :=
  let lai_cols := lai_columns inv in
  let ccc_cols := ccc_name <$> lai_cols in
  cab_loop ccc_cols O lai_cols inv.

Definition join_keys : list string :=
  ["point_id"; "gdd_cumsum"; "parcel"; "location"; "date"].

(** Modelled from the spec: [join_with_insitu] is defined in [utils], which
    is not among the sources. The spec describes the joiner as merging
    in-situ records with model predictions on the shared keys point id,
    cumulative growing-degree-days, parcel, location and date, one row per
    matched observation with both reference and predicted values; this is
    the inner merge the script itself uses at line 245. How the BBCH
    ratings table is attached is not described, so it is not consulted. *)
Definition join_with_insitu_spec (insitu bbch_insitu inv_res : DataFrame)
    (traits : list string) : result DataFrame :=
  pd_merge insitu inv_res join_keys.

(** ** The entry point (lines 212-288) *)

Section Pipeline.

Variable plot_prediction :
  list cell → list cell → string → string → TraitLimits → result row.
Variable assign_macro_stages : cell → result cell.
Variable bbch_confusion_matrix :
  DataFrame → string → result (DataFrame * list string).
Variable join_with_insitu :
  DataFrame → DataFrame → DataFrame → list string → result DataFrame.

Record settings := Settings {
  trait_name : string;
  trait_unit : string;
  trait_limits : TraitLimits
}.

(** [trait_settings[trait]] without its [orig_trait_data] entry. *)
Definition trait_settings (trait : string) : result settings :=
  if decide (trait = "lai") then
    Ok (Settings "Green Leaf Area Index" "$m^2$ $m^{-2}$" (Limits 0 8))
  else if decide (trait = "ccc") then
    Ok (Settings "Canopy Chlorophyll Content" "$g$ $m^{-2}$" (Limits 0 4))
  else if decide (trait = "cab") then
    Ok (Settings "Leaf Chlorophyll Content" "$\mu$ $g$ $cm^{-2}$" (Limits 0 80))
  else Err (KeyError trait).

(** Lines 244-273: the in-situ table of the trait and the inversion
    results it is joined with. Only [cab] derives anything; it extends the
    inversion results by their [cab] columns. *)
Definition trait_tables (lai_all ccc_all inv_res : DataFrame) (trait : string)
    : result (DataFrame * DataFrame) :=
  if decide (trait = "cab") then
    insitu ← insitu_cab lai_all ccc_all;
    inv ← inversion_cab inv_res;
    Ok (insitu, inv)
  else if decide (trait = "lai") then Ok (lai_all, inv_res)
  else if decide (trait = "ccc") then Ok (ccc_all, inv_res)
  else Err (KeyError trait).

(** The body of [for trait in traits]. [inv_res_df] is the reference of the
    inversion results of the current sub-directory, which the [cab] branch
    extends in place. *)
Definition process_trait (res_dir : string) (lai_all ccc_all bbch_insitu : DataFrame)
    (inv_res_df : nat) (trait : string) : M unit :=
  let out_dir := joinpath res_dir ("validation_" +:+ trait) in
  emit (Mkdir out_dir);;
  inv ← load inv_res_df;
  '(insitu_trait_df, inv) ← lift (trait_tables lai_all ccc_all inv trait);
  store inv_res_df inv;;
  joined ← lift (join_with_insitu insitu_trait_df bbch_insitu inv [trait]);
  emit (FrameCsv (joinpath out_dir
          ("inv_res_joined_with_insitu_" +:+ trait +:+ ".csv")) joined);;
  cfg ← lift (trait_settings trait);
  j ← alloc joined;
  validate_data plot_prediction assign_macro_stages bbch_confusion_matrix
    j out_dir trait (trait_name cfg) (trait_unit cfg) (trait_limits cfg).

Fixpoint for_each {A} (body : A → M unit) (l : list A) : M unit :=
  match l with
  | [] => mret tt
  | x :: l' => body x;; for_each body l'
  end.

(** The loop over [sub_dirs]; each carries the table read from its
    [inv_res_gdd_insitu_points.csv]. *)
Definition validate_all (lai_all ccc_all bbch_insitu : DataFrame)
    (traits : list string) (sub_dirs : list (string * DataFrame)) : M unit :=
  for_each (λ sd,
      inv_res_df ← alloc sd.2;
      for_each (process_trait sd.1 lai_all ccc_all bbch_insitu inv_res_df) traits)
    sub_dirs.

End Pipeline.

(** * Specification vocabulary *)

(** ** Derived columns and merges *)

(** [ccc / lai * 100] on two binary64 values. *)
Definition cab_value (ccc lai : spec_float) : spec_float :=
  fmul (fdiv ccc lai) (float_of_Z 100).

(** What a row of a frame looks like once a ratio column [c] has been
    derived from the columns [a] and [b]. *)
Definition ratio_row (a b c : string) (r r' : row) : Prop :=
  ∃ x y, to_float (cell_at a r) = Some x ∧ to_float (cell_at b r) = Some y ∧
         r' = <[c:=CNum (cab_value x y)]> r.



(** The rows before and after the loop over the [lai] columns [cols]: labels
    the loop does not write are untouched, and a [cab] label written for
    the last time from column [c] holds the formula of [c]. *)
Definition cab_rows (cols : list string) (r r' : row) : Prop :=
  (∀ k, (∀ c, c ∈ cols → cab_name c ≠ k) → r' !! k = r !! k) ∧
  (∀ c, c ∈ cols → (∀ c', c' ∈ cols → cab_name c' = cab_name c → c' = c) →
        ∃ x y, to_float (cell_at (ccc_name c) r) = Some x ∧
               to_float (cell_at c r) = Some y ∧
               cell_at (cab_name c) r' = CNum (cab_value x y)).

(** ** Row counts of an inner merge *)




(** ** The patched rows of 2019 *)

Section LoaderVocabulary.

Variable repr_float : spec_float → string.



Definition lai_patch (r : row) : row :=
  <["location":=CStr "SwissFutureFarm"]>
    (<["genotype":=CStr "Arnold"]>
       (<["parcel":=cell_at "field" r]>
          (<["point_id":=point_id_of repr_float (cell_at "Plot" r)]>
             (<["gdd_cumsum":=CInt 999]> r)))).

Definition ccc_patch (r : row) : row :=
  <["ccc":=cell_at "CCC [g/m2]" r]> (lai_patch r).

End LoaderVocabulary.

(** ** Runs of [validate_data] *)

Section ValidationVocabulary.

Variable plot_prediction :
  list cell → list cell → string → string → TraitLimits → result row.
Variable assign_macro_stages : cell → result cell.
Variable bbch_confusion_matrix :
  DataFrame → string → result (DataFrame * list string).

(** The request made to the metric calculator for the rows [rs]. *)
Definition plot_of (trait pred_col : string) (rs : list row) : event :=
  PlotPrediction (cell_at trait <$> rs) (cell_at pred_col <$> rs).

(** The statistics row of macro stage [k] in a stratification of [d]. *)
Definition stage_row (d : DataFrame) (trait pred_col tn tu : string)
    (tl : TraitLimits) (k : cell) (stats : row) : Prop :=
  ∃ s, plot_prediction
         (cell_at trait <$> rows (select_rows "Macro-Stage" k d))
         (cell_at pred_col <$> rows (select_rows "Macro-Stage" k d))
         tn tu tl = Ok s ∧
       stats = <["phase":=k]> s.

(** A metric request is row-wise when both of its sequences are read off
    the same rows [rs], taken from an admissible set of tables [R]. *)
Definition plots_rows (trait : string) (R : list row → Prop) (e : event) : Prop :=
  match e with
  | PlotPrediction t p =>
      ∃ rs c, R rs ∧ t = cell_at trait <$> rs ∧ p = cell_at c <$> rs
  | _ => True
  end.

Definition stage_plots (d : DataFrame) (trait pred_col : string) (keys : list cell)
    : list event :=
  (λ k, plot_of trait pred_col (rows (select_rows "Macro-Stage" k d))) <$> keys.

Definition is_stage_of (d : DataFrame) (rs : list row) : Prop :=
  ∃ k, rs = rows (select_rows "Macro-Stage" k d).

Definition full_sample_events (d1 : DataFrame) (out_dir trait : string)
    (sa sp : row) : list event :=
  [plot_of trait (trait +:+ "_all") (rows d1);
   plot_of trait (trait +:+ " (Phenology)") (rows d1);
   Savefig (joinpath out_dir (file_stem trait +:+ "_scatterplot.png"));
   StatsCsv (joinpath out_dir (file_stem trait +:+ "_error_stats.csv")) true
     [<["phenology_considered":=CBool false]> sa;
      <["phenology_considered":=CBool true]> sp]].

(** What a complete run of lines 92-157 on the working frame [d1] has
    computed and emitted. *)
Definition stage_validation_ok (d1 : DataFrame) (out_dir trait tn tu : string)
    (tl : TraitLimits) (evs : list event) : Prop :=
  ∃ ratings stages d2 ms stats1 stats2 d3 written,
    getitem d1 "BBCH Rating" = Ok ratings ∧
    traverse assign_macro_stages ratings = Ok stages ∧
    setitem d1 bbch_column stages = Ok d2 ∧
    getitem d2 "Macro-Stage" = Ok ms ∧
    (2 ≤ nunique ms)%nat ∧
    Forall2 (stage_row d2 trait (trait +:+ " (Phenology)") tn tu tl)
      (group_keys ms) stats1 ∧
    Forall2 (stage_row d2 trait (trait +:+ "_all") tn tu tl)
      (group_keys ms) stats2 ∧
    bbch_confusion_matrix d2 out_dir = Ok (d3, written) ∧
    evs =
      stage_plots d2 trait (trait +:+ " (Phenology)") (group_keys ms)
      ++ [Savefig (joinpath out_dir
                     (file_stem trait +:+ "_scatterplot_pheno_phases.png"));
          StatsCsv (joinpath out_dir
                      (file_stem trait +:+ "_errors_pheno_phases.csv")) false stats1]
      ++ stage_plots d2 trait (trait +:+ "_all") (group_keys ms)
      ++ [Savefig (joinpath out_dir
                     (file_stem trait +:+ "_scatterplot_pheno_phases_all.png"));
          StatsCsv (joinpath out_dir
                      (file_stem trait +:+ "_errors_pheno_phases_all.csv")) false stats2]
      ++ [ConfusionMatrix d2 out_dir]
      ++ (Artifact <$> written).

Definition labelled_stage_of (d1 : DataFrame) (rs : list row) : Prop :=
  ∃ stages d2, setitem d1 bbch_column stages = Ok d2 ∧ is_stage_of d2 rs.

Definition full_sample_ok (d1 : DataFrame) (out_dir trait tn tu : string)
    (tl : TraitLimits) (evs : list event) : Prop :=
  ∃ sa sp,
    trait ∈ columns d1 ∧
    trait +:+ "_all" ∈ columns d1 ∧
    trait +:+ " (Phenology)" ∈ columns d1 ∧
    plot_prediction (cell_at trait <$> rows d1)
      (cell_at (trait +:+ "_all") <$> rows d1) tn tu tl = Ok sa ∧
    plot_prediction (cell_at trait <$> rows d1)
      (cell_at (trait +:+ " (Phenology)") <$> rows d1) tn tu tl = Ok sp ∧
    evs = full_sample_events d1 out_dir trait sa sp.

(** The row lists metric requests may be read from during a run on [d0]:
    the working frame, or one macro stage of the labelled working frame. *)
Definition working_rows (d0 : DataFrame) (trait : string) (rs : list row) : Prop :=
  ∃ d1, dropna [trait] d0 = Ok d1 ∧ (rs = rows d1 ∨ labelled_stage_of d1 rs).


(** The columns [validate_data] reads. *)
Definition expected_columns (trait : string) : list string :=
  [trait; trait +:+ "_all"; trait +:+ " (Phenology)"; "BBCH Rating"; "Macro-Stage"].

(** The rows that survive line 53. *)
Definition kept_rows (trait : string) (d0 : DataFrame) : list row :=
  filter (λ r, complete_on [trait] r) (rows d0).

End ValidationVocabulary.

(** ** Test tables and stand-ins for the absent helpers *)

Module Fixture.

Definition num (z : Z) : cell := CNum (float_of_Z z).
Definition nan : cell := CNum S754_nan.
Definition record (fields : list (string * cell)) : row := list_to_map fields.

(** A metric calculator that only counts the pairs it is given. *)
Definition count_pairs (t p : list cell) (tn tu : string) (tl : TraitLimits)
    : result row :=
  Ok {[ "n" := CInt (Z.of_nat (length t)) ]}.

Definition keep_rating (c : cell) : result cell := Ok c.

Definition one_matrix (d : DataFrame) (out_dir : string)
    : result (DataFrame * list string) :=
  Ok (d, [joinpath out_dir "bbch_confusion_matrix.csv"]).

Definition fixed_repr (f : spec_float) : string := "nan".

Definition limits : TraitLimits := Limits 0 80.

Definition obs_columns : list string :=
  ["cab"; "cab_all"; "cab (Phenology)"; "BBCH Rating"; "Macro-Stage"].

Definition obs (cab cab_all cab_pheno : cell) (bbch : Z) (stage : string) : row :=
  record [("cab", cab); ("cab_all", cab_all); ("cab (Phenology)", cab_pheno);
          ("BBCH Rating", CInt bbch); ("Macro-Stage", CStr stage)].

(** Three observations in two macro stages; the second lacks its reference
    value, the third its unconstrained prediction. *)
Definition two_stages : DataFrame :=
  Frame obs_columns
    [obs (num 40) (num 42) (num 41) 31 "stem elongation";
     obs nan (num 35) (num 36) 32 "stem elongation";
     obs (num 50) nan (num 48) 65 "flowering"].

(** Two observations of one macro stage. *)
Definition one_stage : DataFrame :=
  Frame obs_columns
    [obs (num 40) (num 42) (num 41) 61 "flowering";
     obs (num 50) (num 47) (num 48) 65 "flowering"].

Definition start (d : DataFrame) : world := World [d] [].

Definition validate (d : DataFrame) : world * result unit :=
  validate_data count_pairs keep_rating one_matrix 0 "out" "cab"
    "Leaf Chlorophyll Content" "ug/cm2" limits (start d).

(** In-situ tables of 2019 as they are read: one plot, sampled twice. *)
Definition raw_lai : DataFrame :=
  Frame ["Plot"; "field"; "date"; "lai"]
    [record [("Plot", CStr "F1_P2_a"); ("field", CStr "F1");
             ("date", CStr "2019-04-18"); ("lai", num 0)];
     record [("Plot", CStr "F1_P2_b"); ("field", CStr "F1");
             ("date", CStr "2019-05-20"); ("lai", num 3)]].

Definition raw_ccc : DataFrame :=
  Frame ["Plot"; "field"; "date"; "lai"; "CCC [g/m2]"]
    [record [("Plot", CStr "F1_P2_a"); ("field", CStr "F1");
             ("date", CStr "2019-04-18"); ("lai", num 0);
             ("CCC [g/m2]", num 1)];
     record [("Plot", CStr "F1_P2_b"); ("field", CStr "F1");
             ("date", CStr "2019-05-20"); ("lai", num 3);
             ("CCC [g/m2]", num 2)]].

(** The same tables after the 2019 patch. *)
Definition patched (r : result DataFrame) : DataFrame :=
  match r with Ok d => d | Err _ => Frame [] [] end.

Definition lai_2019 : DataFrame := patched (patch_lai fixed_repr 2019 raw_lai).
Definition ccc_2019 : DataFrame := patched (patch_ccc fixed_repr 2019 raw_ccc).


(** Inversion results with two retrieval configurations. *)
Definition inv_res : DataFrame :=
  Frame ["point_id"; "gdd_cumsum"; "parcel"; "location"; "date";
         "lai_all"; "ccc_all"; "lai (Phenology)"; "ccc (Phenology)"; "Macro-Stage"]
    [record [("point_id", CStr "F1_P2"); ("gdd_cumsum", CInt 999);
             ("parcel", CStr "F1"); ("location", CStr "SwissFutureFarm");
             ("date", CStr "2019-04-18");
             ("lai_all", num 2); ("ccc_all", num 1);
             ("lai (Phenology)", num 4); ("ccc (Phenology)", num 1);
             ("Macro-Stage", CStr "stem elongation")]].


(** The tables the script derives from the ones above. *)
Definition insitu_2019 : DataFrame := patched (insitu_cab lai_2019 ccc_2019).
Definition inv_res_cab : DataFrame := patched (inversion_cab inv_res).
Definition zero_lai_row : row := default ∅ (head (rows insitu_2019)).

Definition no_bbch : DataFrame := Frame ["point_id"; "date"; "BBCH Rating"] [].



End Fixture.

(** * Further vocabulary *)

(** ** Plot labels and file names *)

(** Whether the character [c] occurs in [s]. *)
Fixpoint has_char (c : ascii) (s : string) : bool :=
  match s with
  | EmptyString => false
  | String a s' => Ascii.eqb a c || has_char c s'
  end.

(** A blank becomes a hyphen, any other character stays. *)
Definition hyphen_for_blank (c : ascii) : ascii :=
  if Ascii.eqb c " " then "-"%char else c.

(** ** Outputs of a run *)

(** The file an event writes, if it writes one. *)
Definition written_path (e : event) : option string :=
  match e with
  | Savefig p | StatsCsv p _ _ | FrameCsv p _ | Artifact p => Some p
  | _ => None
  end.

Definition is_metric_request (e : event) : bool :=
  match e with PlotPrediction _ _ => true | _ => false end.

(** The files [validate_data] writes itself, in the order of lines 85, 89,
    119, 125, 147 and 153. *)
Definition validation_files (out_dir trait : string) : list string :=
  (λ suffix, joinpath out_dir (file_stem trait +:+ suffix))
    <$> ["_scatterplot.png"; "_error_stats.csv";
         "_scatterplot_pheno_phases.png"; "_errors_pheno_phases.csv";
         "_scatterplot_pheno_phases_all.png"; "_errors_pheno_phases_all.csv"].

(** The number of macro stages among the rows that have a reference
    value. *)
Definition stage_count (trait : string) (d0 : DataFrame) : nat :=
  nunique (cell_at "Macro-Stage" <$> kept_rows trait d0).

(** The working frame of line 53. *)
Definition working_frame (trait : string) (d0 : DataFrame) : DataFrame :=
  Frame (columns d0) (kept_rows trait d0).

(** ** The in-situ table of leaf chlorophyll content *)

(** Neither of the labels that the merge of line 245 produces for shared
    columns ([date_x], [lai_x]) is already a label of the table. *)
Definition no_suffixed_labels (d : DataFrame) : Prop :=
  ("date_x" ∉ columns d) ∧ ("lai_x" ∉ columns d).

(** Lines 251-257 on one row of the merged table: [date] and [lai] take the
    values of the left table, the suffixed columns go. *)
Definition insitu_row (m : row) : row :=
  let m := <["date":=cell_at "date_x" m]> m in
  let m := foldr delete m ["date_x"; "date_y"] in
  let m := <["lai":=cell_at "lai_x" m]> m in
  foldr delete m ["lai_x"; "lai_y"].

(** The columns of the in-situ table of [cab], from those of the merge. *)
Definition insitu_columns (merged : list string) : list string :=
  with_column "cab"
    (filter (λ c, c ∉ ["lai_x"; "lai_y"])
       (with_column "lai"
          (filter (λ c, c ∉ ["date_x"; "date_y"]) (with_column "date" merged)))).

(** ** Undefined ratios *)

(** The pairs of operands for which a binary64 division has no value: a
    NaN operand, zero by zero, infinity by infinity. *)
Definition ratio_undefined (x y : spec_float) : bool :=
  match x, y with
  | S754_nan, _ | _, S754_nan => true
  | S754_zero _, S754_zero _ => true
  | S754_infinity _, S754_infinity _ => true
  | _, _ => false
  end.

Definition is_nan (x : spec_float) : bool :=
  match x with S754_nan => true | _ => false end.

(** * The script as a whole (lines 160-288) *)

Section Main.

Variable plot_prediction :
  list cell → list cell → string → string → TraitLimits → result row.
Variable assign_macro_stages : cell → result cell.
Variable bbch_confusion_matrix :
  DataFrame → string → result (DataFrame * list string).
Variable join_with_insitu :
  DataFrame → DataFrame → DataFrame → list string → result DataFrame.
Variable repr_float : spec_float → string.

(** [gpd.read_file] and [pd.read_csv]: the table stored under a path, or
    the exception raised for it. Reading changes nothing. *)
Variable read_file : string → result DataFrame.
Variable read_csv : string → result DataFrame.

Definition traits : list string := ["cab"].
Definition years : list Z := [2019; 2022].
Definition sub_dirs : list string := ["agdds_and_s2"; "agdds_only"].
Definition inv_res_dir : string := "../results/lut_based_inversion".

Definition trait_dir (year : Z) : string :=
  "../data/in_situ_traits_" +:+ pretty year.

Definition fpath_insitu_lai (year : Z) : string :=
  joinpath (trait_dir year) "in-situ_glai.gpkg".
Definition fpath_insitu_ccc (year : Z) : string :=
  joinpath (trait_dir year) "in-situ_ccc.gpkg".
Definition fpath_insitu_bbch : string :=
  joinpath "../data/in_situ_traits_2022" "in-situ_bbch.gpkg".
Definition fpath_inv_res (sub_dir : string) : string :=
  joinpath (joinpath inv_res_dir sub_dir) "inv_res_gdd_insitu_points.csv".

(** The body of the loop over [years] (lines 174-198): the LAI table is
    read and patched, then the CCC table. *)
Definition load_year (year : Z) : result (DataFrame * DataFrame) :=
  lai ← read_file (fpath_insitu_lai year);
  lai ← patch_lai repr_float year lai;
  ccc ← read_file (fpath_insitu_ccc year);
  ccc ← patch_ccc repr_float year ccc;
  Ok (lai, ccc).

(** The body of the loop over [sub_dirs] (lines 213-288). *)
Definition validate_sub_dir (lai_all ccc_all bbch_insitu : DataFrame)
    (sub_dir : string) : M unit :=
  inv_res ← lift (read_csv (fpath_inv_res sub_dir));
  inv_res_df ← alloc inv_res;
  for_each
    (process_trait plot_prediction assign_macro_stages bbch_confusion_matrix
       join_with_insitu (joinpath inv_res_dir sub_dir)
       lai_all ccc_all bbch_insitu inv_res_df)
    traits.

Definition main : M unit :=
  tables ← lift (traverse load_year years);
  let lai_all := pd_concat (fst <$> tables) in
  let ccc_all := pd_concat (snd <$> tables) in
  bbch_insitu ← lift (read_file fpath_insitu_bbch);
  for_each (validate_sub_dir lai_all ccc_all bbch_insitu) sub_dirs.

(** The files of the in-situ measurements, in the order they are read. *)
Definition insitu_files : list string :=
  (years ≫= λ year, [fpath_insitu_lai year; fpath_insitu_ccc year])
  ++ [fpath_insitu_bbch].

End Main.

(** The files one trait leaves in the directory [dir] of its inversion
    results: the joined table, then those of [validate_data]. *)
Definition trait_files (dir trait : string) : list string :=
  let out_dir := joinpath dir ("validation_" +:+ trait) in
  joinpath out_dir ("inv_res_joined_with_insitu_" +:+ trait +:+ ".csv")
  :: validation_files out_dir trait.

(** ** Further test tables *)

Module Cases.

Import Fixture.

(** Observations without in-situ ratings. *)
Definition no_rating : DataFrame :=
  Frame ["cab"; "cab_all"; "cab (Phenology)"; "Macro-Stage"]
    [record [("cab", num 40); ("cab_all", num 42); ("cab (Phenology)", num 41);
             ("Macro-Stage", CStr "flowering")]].

(** In-situ tables of 2022 without records. *)
Definition lai_2022 : DataFrame :=
  Frame ["point_id"; "gdd_cumsum"; "parcel"; "location"; "date"; "lai"] [].
Definition ccc_2022 : DataFrame :=
  Frame ["point_id"; "gdd_cumsum"; "parcel"; "location"; "date"; "lai"; "ccc"] [].


(** Inversion results for the two sampling dates of the plot, in two macro
    stages, with the in-situ ratings already attached. *)
Definition inv_two_dates : DataFrame :=
  Frame ["point_id"; "gdd_cumsum"; "parcel"; "location"; "date";
         "lai_all"; "ccc_all"; "lai (Phenology)"; "ccc (Phenology)";
         "Macro-Stage"; "BBCH Rating"]
    [record [("point_id", CStr "F1_P2"); ("gdd_cumsum", CInt 999);
             ("parcel", CStr "F1"); ("location", CStr "SwissFutureFarm");
             ("date", CStr "2019-04-18");
             ("lai_all", num 2); ("ccc_all", num 1);
             ("lai (Phenology)", num 4); ("ccc (Phenology)", num 1);
             ("Macro-Stage", CStr "stem elongation"); ("BBCH Rating", CInt 31)];
     record [("point_id", CStr "F1_P2"); ("gdd_cumsum", CInt 999);
             ("parcel", CStr "F1"); ("location", CStr "SwissFutureFarm");
             ("date", CStr "2019-05-20");
             ("lai_all", num 3); ("ccc_all", num 2);
             ("lai (Phenology)", num 3); ("ccc (Phenology)", num 1);
             ("Macro-Stage", CStr "flowering"); ("BBCH Rating", CInt 65)]].

(** A file system with the five in-situ files, and one with the inversion
    results of both sub-directories. *)
Definition files (path : string) : result DataFrame :=
  if decide (path = fpath_insitu_lai 2019) then Ok raw_lai
  else if decide (path = fpath_insitu_ccc 2019) then Ok raw_ccc
  else if decide (path = fpath_insitu_lai 2022) then Ok lai_2022
  else if decide (path = fpath_insitu_ccc 2022) then Ok ccc_2022
  else if decide (path = fpath_insitu_bbch) then Ok no_bbch
  else Err (Raised "No such file").

Definition files_without (missing path : string) : result DataFrame :=
  if decide (path = missing) then Err (Raised "No such file") else files path.

Definition inversions (path : string) : result DataFrame :=
  if decide (path ∈ fpath_inv_res <$> sub_dirs) then Ok inv_two_dates
  else Err (Raised "No such file").

Definition nothing : world := World [] [].

Definition run_main (read_file : string → result DataFrame) : world * result unit :=
  main count_pairs keep_rating one_matrix join_with_insitu_spec fixed_repr
    read_file inversions nothing.

(** The tables of one trait of the fixture, and its run. *)
Definition joined_2019 : DataFrame :=
  patched (join_with_insitu_spec insitu_2019 no_bbch inv_res_cab ["cab"]).

Definition run_trait_on (trait : string) : world * result unit :=
  process_trait count_pairs keep_rating one_matrix join_with_insitu_spec
    "results" lai_2019 ccc_2019 no_bbch 0 trait (start inv_res).

Definition validate_in (d : DataFrame) (trait : string) : world * result unit :=
  validate_data count_pairs keep_rating one_matrix 0 "out" trait
    "Leaf Chlorophyll Content" "ug/cm2" limits (start d).

Definition stage_groups : list (cell * DataFrame) :=
  match groupby "Macro-Stage" two_stages with Ok gs => gs | Err _ => [] end.

(** The first LAI record and the second CCC record of the plot, sampled
    on different dates, as read and as patched. *)
Definition raw_first_lai : row := default ∅ (rows raw_lai !! 0%nat).
Definition raw_second_ccc : row := default ∅ (rows raw_ccc !! 1%nat).
Definition first_lai : row := default ∅ (rows lai_2019 !! 0%nat).
Definition second_ccc : row := default ∅ (rows ccc_2019 !! 1%nat).

End Cases.

(** * Properties *)

(** ** Results, cells and frames *)

Lemma result_bind_ok {A B} (m : result A) (f : A → result B) b :
  m ≫= f = Ok b → ∃ a, m = Ok a ∧ f a = Ok b.
Proof. destruct m; [eauto | discriminate]. Qed.

(** Peel the successful steps off a [result] computation that returned. *)
Ltac ok_inv H :=
  repeat
    (let a := fresh "v" in
     let E := fresh "E" in
     apply result_bind_ok in H as (a & E & H)).

Lemma traverse_ok {A B} (f : A → result B) l ys :
  traverse f l = Ok ys → Forall2 (λ x y, f x = Ok y) l ys.
Proof.
  revert ys. induction l as [|x l IH]; intros ys H; simpl in H.
  - injection H as <-. constructor.
  - ok_inv H. injection H as <-. constructor; auto.
Qed.

Lemma traverse_total {A B} (f : A → result B) l :
  Forall (λ x, ∃ y, f x = Ok y) l → ∃ ys, traverse f l = Ok ys.
Proof.
  induction 1 as [|x l [y Hy] _ [ys Hys]]; simpl; [eauto|].
  rewrite Hy. simpl. rewrite Hys. simpl. eauto.
Qed.

Lemma cell_at_insert c v (r : row) : cell_at c (<[c:=v]> r) = v.
Proof. unfold cell_at. by rewrite lookup_insert_eq. Qed.

Lemma cell_at_insert_ne c c' v (r : row) :
  c ≠ c' → cell_at c' (<[c:=v]> r) = cell_at c' r.
Proof. intros. unfold cell_at. by rewrite lookup_insert_ne. Qed.

Lemma getitem_ok d c v :
  getitem d c = Ok v → c ∈ columns d ∧ v = cell_at c <$> rows d.
Proof. unfold getitem. case_decide; intros [= <-]; auto. Qed.

Lemma getitem_in d c : c ∈ columns d → getitem d c = Ok (cell_at c <$> rows d).
Proof. intros. unfold getitem. by rewrite decide_True. Qed.

Lemma setitem_ok d c vals d' :
  setitem d c vals = Ok d' →
  length vals = length (rows d) ∧
  columns d' = with_column c (columns d) ∧
  rows d' = zip_with (λ r v, <[c:=v]> r) (rows d) vals.
Proof. unfold setitem. case_decide; intros Hs; [injection Hs as <-; auto | discriminate]. Qed.

Lemma with_column_in c cols : c ∈ with_column c cols.
Proof. unfold with_column. case_decide; set_solver. Qed.

Lemma with_column_mono c c' cols : c' ∈ cols → c' ∈ with_column c cols.
Proof. unfold with_column. case_decide; set_solver. Qed.

Lemma with_column_inv c c' cols : c' ∈ with_column c cols → c' = c ∨ c' ∈ cols.
Proof. unfold with_column. case_decide; set_solver. Qed.

Lemma dropna_ok cs d d' :
  dropna cs d = Ok d' →
  Forall (λ c, c ∈ columns d) cs ∧
  d' = Frame (columns d) (filter (λ r, complete_on cs r) (rows d)).
Proof.
  unfold dropna. destruct (filter _ cs) as [|c l] eqn:E; intros [= <-].
  split; [|done]. apply Forall_forall. intros c Hc.
  destruct (decide (c ∈ columns d)) as [|Hn]; [done|].
  assert (c ∈ filter (λ c, c ∉ columns d) cs) as Hf
    by (apply list_elem_of_filter; auto).
  rewrite E in Hf. by apply not_elem_of_nil in Hf.
Qed.

Lemma dropna_in cs d :
  Forall (λ c, c ∈ columns d) cs →
  dropna cs d = Ok (Frame (columns d) (filter (λ r, complete_on cs r) (rows d))).
Proof.
  intros H. unfold dropna.
  destruct (filter _ cs) as [|c l] eqn:E; [done|].
  assert (c ∈ filter (λ c, c ∉ columns d) cs) as Hf by (rewrite E; left).
  apply list_elem_of_filter in Hf as [Hn Hc].
  rewrite Forall_forall in H. by destruct Hn; apply H.
Qed.

(** ** The chlorophyll formula *)

Lemma cell_truediv_ok a b q :
  cell_truediv a b = Ok q →
  ∃ x y, to_float a = Some x ∧ to_float b = Some y ∧ q = CNum (fdiv x y).
Proof.
  unfold cell_truediv. destruct (to_float a), (to_float b); intros [= <-]; eauto.
Qed.

Lemma series_ratio_ok {A} (f g : A → cell) (l : list A) q m :
  series_truediv (f <$> l) (g <$> l) = Ok q →
  series_mul_int q 100 = Ok m →
  Forall2 (λ r v, ∃ x y, to_float (f r) = Some x ∧ to_float (g r) = Some y ∧
                         v = CNum (cab_value x y)) l m.
Proof.
  unfold series_mul_int. revert q m.
  induction l as [|r l IH]; intros q m H1 H2; simpl in H1.
  - injection H1 as <-. simpl in H2. injection H2 as <-. constructor.
  - ok_inv H1. injection H1 as <-. simpl in H2. ok_inv H2. injection H2 as <-.
    apply cell_truediv_ok in E as (x & y & Hx & Hy & ->).
    simpl in E1. injection E1 as <-.
    constructor; [|eauto]. by exists x, y.
Qed.

Lemma derive_ratio_rows d a b c va vb q m d' :
  getitem d a = Ok va → getitem d b = Ok vb →
  series_truediv va vb = Ok q → series_mul_int q 100 = Ok m →
  setitem d c m = Ok d' →
  columns d' = with_column c (columns d) ∧
  Forall2 (ratio_row a b c) (rows d) (rows d').
Proof.
  intros [_ ->]%getitem_ok [_ ->]%getitem_ok Hq Hm (Hlen & Hc & Hr)%setitem_ok.
  split; [done|]. rewrite Hr. clear Hr Hc Hlen.
  pose proof (series_ratio_ok _ _ _ _ _ Hq Hm) as H. clear Hq Hm.
  induction H as [|r v l m' (x & y & Hx & Hy & ->) _ IH]; simpl; constructor; auto.
  by exists x, y.
Qed.

Lemma insitu_cab_rows lai_all ccc_all d :
  insitu_cab lai_all ccc_all = Ok d →
  "cab" ∈ columns d ∧
  Forall (λ r, ∃ x y, to_float (cell_at "ccc" r) = Some x ∧
                      to_float (cell_at "lai" r) = Some y ∧
                      cell_at "cab" r = CNum (cab_value x y)) (rows d).
Proof.
  unfold insitu_cab. intros H. ok_inv H.
  destruct (derive_ratio_rows _ _ _ _ _ _ _ _ _ E6 E7 E8 E9 H) as [Hc Hr].
  split; [rewrite Hc; apply with_column_in|].
  clear -Hr. induction Hr as [|r r' l l' (x & y & Hx & Hy & ->) _ IH]; constructor; auto.
  exists x, y. rewrite !cell_at_insert_ne by done. by rewrite cell_at_insert.
Qed.



(** ** Column labels of the retrieval configurations *)

Lemma prefix_cons a s b t :
  String.prefix (String a s) (String b t) = true → a = b ∧ String.prefix s t = true.
Proof. cbn [String.prefix]. destruct (ascii_dec a b); [auto | discriminate]. Qed.

Lemma startswith_lai c :
  PyStr.startswith "lai" c = true → ∃ s, c = String "l" (String "a" (String "i" s)).
Proof.
  unfold PyStr.startswith. intros H.
  destruct c as [|a [|b [|i s]]]; try discriminate H.
  - apply prefix_cons in H as [_ H]. discriminate H.
  - apply prefix_cons in H as [_ H]. apply prefix_cons in H as [_ H]. discriminate H.
  - apply prefix_cons in H as [<- H]. apply prefix_cons in H as [<- H].
    apply prefix_cons in H as [<- H]. by exists s.
Qed.

Lemma cab_name_head s : ∃ t, cab_name (String "l" (String "a" (String "i" s))) = String "c" (String "a" t).
Proof.
  exists (String "b" (PyStr.replace_from "lai" "cab" 0 s)).
  unfold cab_name, PyStr.replace. by destruct s.
Qed.

Lemma ccc_name_head s : ∃ t, ccc_name (String "l" (String "a" (String "i" s))) = String "c" (String "c" t).
Proof.
  exists (String "c" (PyStr.replace_from "lai" "ccc" 0 s)).
  unfold ccc_name, PyStr.replace. by destruct s.
Qed.

Lemma cab_name_fresh c c' :
  PyStr.startswith "lai" c = true → PyStr.startswith "lai" c' = true →
  cab_name c ≠ c' ∧ cab_name c ≠ ccc_name c'.
Proof.
  intros [s ->]%startswith_lai [s' ->]%startswith_lai.
  destruct (cab_name_head s) as [t ->], (ccc_name_head s') as [t' ->].
  split; discriminate.
Qed.

Lemma lai_columns_startswith inv c :
  c ∈ lai_columns inv → PyStr.startswith "lai" c = true ∧ c ∈ columns inv.
Proof.
  unfold lai_columns. intros [H ?]%list_elem_of_filter. split; [|done].
  by destruct (PyStr.startswith "lai" c).
Qed.

Lemma cab_loop_ok ccc_cols lai_cols idx inv inv' :
  (∀ i c, lai_cols !! i = Some c → ccc_cols !! (idx + i)%nat = Some (ccc_name c)) →
  Forall (λ c, PyStr.startswith "lai" c = true) lai_cols →
  cab_loop ccc_cols idx lai_cols inv = Ok inv' →
  (∀ c, c ∈ columns inv → c ∈ columns inv') ∧
  (∀ c, c ∈ lai_cols → cab_name c ∈ columns inv') ∧
  Forall2 (cab_rows lai_cols) (rows inv) (rows inv').
Proof.
  revert idx inv. induction lai_cols as [|h rest IH]; intros idx inv Hccc Hlai H.
  - simpl in H. injection H as <-. split; [done|]. split; [set_solver|].
    apply Forall2_same_length_lookup_2; [done|].
    intros i r r' Hr Hr'. assert (r' = r) as -> by congruence.
    split; [done|]. intros c Hc. set_solver.
  - assert (ccc_cols !! idx = Some (ccc_name h)) as Hh.
    { rewrite <- (Nat.add_0_r idx). by apply Hccc. }
    simpl in H. rewrite Hh in H. simpl in H. ok_inv H.
    destruct (derive_ratio_rows _ _ _ _ _ _ _ _ _ E E0 E1 E2 E3) as [Hc Hr].
    apply Forall_cons in Hlai as [Hh' Hlai].
    apply IH in H as (Hcols & Hcab & Hrows); [| |done].
    2:{ intros i c Hi. replace (S idx + i)%nat with (idx + S i)%nat by lia.
        by apply Hccc. }
    split; [|split].
    + intros c Hin. apply Hcols. rewrite Hc. by apply with_column_mono.
    + intros c [->|Hin]%elem_of_cons; [|by auto].
      apply Hcols. rewrite Hc. apply with_column_in.
    + clear -Hr Hrows Hh' Hlai.
      revert Hrows. generalize (rows inv').
      induction Hr as [|r r1 l l1 (x & y & Hx & Hy & ->) _ IHr];
        intros l' Hrows; inversion Hrows as [|? r' ? l'' [Hk Hf] Hrest]; subst;
        constructor; [|by apply IHr].
      split.
      * intros k Hne. rewrite Hk by (intros c Hin; apply Hne; by right).
        apply lookup_insert_ne. apply Hne. by left.
      * intros c Hin Huniq.
        assert (PyStr.startswith "lai" c = true) as Hcl.
        { apply elem_of_cons in Hin as [->|Hin]; [done|].
          rewrite Forall_forall in Hlai. by apply Hlai. }
        destruct (cab_name_fresh h c Hh' Hcl) as [Hn1 Hn2].
        destruct (decide (c ∈ rest)) as [Hrest'|Hrest'].
        -- destruct (Hf c Hrest') as (x' & y' & Hx' & Hy' & Hv).
           { intros c' Hc' Heq. apply Huniq; [by right|done]. }
           exists x', y'. rewrite !cell_at_insert_ne in * by done. done.
        -- apply elem_of_cons in Hin as [->|Hin]; [|done].
           exists x, y. split; [done|]. split; [done|].
           unfold cell_at. rewrite Hk.
           ++ by rewrite lookup_insert_eq.
           ++ intros c' Hc' Heq. apply Hrest'.
              rewrite <- (Huniq c'); [done|by right|done].
Qed.

Lemma pd_merge_ok left right on d :
  pd_merge left right on = Ok d →
  Forall (λ c, c ∈ columns left ∧ c ∈ columns right) on ∧
  columns d = merged_columns on (columns left) (columns right) ∧
  rows d = rows left ≫= λ l,
             merge_rows on (columns left) (columns right) l
               <$> matches on l (rows right).
Proof.
  unfold pd_merge.
  destruct (filter _ on ++ filter _ on) as [|c l] eqn:E; intros H; [|discriminate].
  injection H as <-. split; [|done].
  apply app_eq_nil in E as [E1 E2].
  apply Forall_forall. intros c Hc. split.
  - destruct (decide (c ∈ columns left)) as [|Hn]; [done|].
    assert (c ∈ filter (λ c, c ∉ columns left) on) as Hf
      by (apply list_elem_of_filter; auto).
    rewrite E1 in Hf. by apply not_elem_of_nil in Hf.
  - destruct (decide (c ∈ columns right)) as [|Hn]; [done|].
    assert (c ∈ filter (λ c, c ∉ columns right) on) as Hf
      by (apply list_elem_of_filter; auto).
    rewrite E2 in Hf. by apply not_elem_of_nil in Hf.
Qed.










(** ** The 2019 schema patch *)

Lemma zip_with_fmap_same {A B C} (f : A → B → C) (g : A → B) (l : list A) :
  zip_with f l (g <$> l) = (λ x, f x (g x)) <$> l.
Proof. induction l as [|x l IH]; csimpl; [done|by rewrite IH]. Qed.

Lemma setitem_fmap d c (f : row → cell) :
  setitem d c (f <$> rows d) =
  Ok (Frame (with_column c (columns d)) ((λ r, <[c:=f r]> r) <$> rows d)).
Proof.
  unfold setitem. rewrite decide_True by apply length_fmap.
  by rewrite zip_with_fmap_same.
Qed.

Lemma getattr_in d c : c ∈ columns d → getattr d c = Ok (cell_at c <$> rows d).
Proof. intros. unfold getattr. by rewrite decide_True. Qed.

Ltac setitem_step :=
  match goal with
  | |- context [setitem ?d ?c (?f <$> ?l)] =>
      change (setitem d c (f <$> l)) with (setitem d c (f <$> rows d));
      rewrite (setitem_fmap d c f)
  end.

Section LoaderFacts.

Variable repr_float : spec_float → string.

Lemma patch_lai_2019 lai :
  "Plot" ∈ columns lai → "field" ∈ columns lai →
  ∃ cols, patch_lai repr_float 2019 lai = Ok (Frame cols (lai_patch repr_float <$> rows lai)) ∧
          (∀ c, c ∈ columns lai → c ∈ cols).
Proof.
  intros HP HF. unfold patch_lai. rewrite decide_True by done.
  rewrite getattr_in by (by apply with_column_mono). simpl.
  rewrite <- !list_fmap_compose.
  rewrite (list_fmap_compose _ (λ r, point_id_of repr_float (cell_at "Plot" r))).
  change (setitem_scalar lai "gdd_cumsum" (CInt 999)) with
    (Frame (with_column "gdd_cumsum" (columns lai))
           ((λ r, <["gdd_cumsum":=CInt 999]> r) <$> rows lai)).
  setitem_step.
  simpl. rewrite getattr_in by (simpl; by do 2 apply with_column_mono). simpl.
  setitem_step.
  simpl. eexists. split.
  - unfold setitem_scalar. simpl. f_equal. f_equal.
    rewrite <- !list_fmap_compose. apply list_fmap_ext. intros i r _. simpl.
    unfold lai_patch. rewrite !cell_at_insert_ne by done. done.
  - intros c Hc. by do 5 apply with_column_mono.
Qed.

Lemma patch_ccc_2019 ccc :
  "Plot" ∈ columns ccc → "field" ∈ columns ccc → "CCC [g/m2]" ∈ columns ccc →
  ∃ cols, patch_ccc repr_float 2019 ccc = Ok (Frame cols (ccc_patch repr_float <$> rows ccc)) ∧
          (∀ c, c ∈ columns ccc → c ∈ cols).
Proof.
  intros HP HF HC. unfold patch_ccc. rewrite decide_True by done.
  rewrite getattr_in by (by apply with_column_mono). simpl.
  rewrite <- !list_fmap_compose.
  rewrite (list_fmap_compose _ (λ r, point_id_of repr_float (cell_at "Plot" r))).
  change (setitem_scalar ccc "gdd_cumsum" (CInt 999)) with
    (Frame (with_column "gdd_cumsum" (columns ccc))
           ((λ r, <["gdd_cumsum":=CInt 999]> r) <$> rows ccc)).
  setitem_step.
  simpl. rewrite getattr_in by (simpl; by do 2 apply with_column_mono). simpl.
  setitem_step.
  simpl. rewrite getitem_in by (simpl; by do 5 apply with_column_mono). simpl.
  setitem_step.
  simpl. eexists. split.
  - f_equal. f_equal.
    rewrite <- !list_fmap_compose. apply list_fmap_ext. intros i r _. simpl.
    unfold ccc_patch, lai_patch. rewrite !cell_at_insert_ne by done. done.
  - intros c Hc. by do 6 apply with_column_mono.
Qed.



End LoaderFacts.

(** ** Group keys *)

Lemma insert_sorted_perm x l : insert_sorted x l ≡ₚ x :: l.
Proof.
  induction l as [|y l IH]; simpl; [done|].
  destruct (cell_leb x y); [done|]. rewrite IH. apply Permutation_swap.
Qed.

Lemma sort_cells_perm l : sort_cells l ≡ₚ l.
Proof.
  induction l as [|x l IH]; simpl; [done|].
  by rewrite insert_sorted_perm, IH.
Qed.

Lemma group_keys_length vals : length (group_keys vals) = nunique vals.
Proof. unfold group_keys, nunique. by rewrite sort_cells_perm. Qed.

Lemma group_keys_NoDup vals : NoDup (group_keys vals).
Proof.
  unfold group_keys, distinct_values. rewrite sort_cells_perm.
  apply NoDup_remove_dups.
Qed.

Lemma elem_of_group_keys k vals :
  k ∈ group_keys vals ↔ k ∈ vals ∧ isna k = false.
Proof.
  unfold group_keys, distinct_values. rewrite sort_cells_perm.
  rewrite elem_of_remove_dups, list_elem_of_filter. tauto.
Qed.

Lemma groupby_ok by_ d gs :
  groupby by_ d = Ok gs →
  ∃ vals, getitem d by_ = Ok vals ∧
          gs = (λ k, (k, select_rows by_ k d)) <$> group_keys vals.
Proof.
  unfold groupby. intros H. ok_inv H. injection H as <-. eauto.
Qed.

(** ** Stepping through code with effects *)

Lemma bind_run {A B} (m : M A) (f : A → M B) w :
  (m ≫= f) w =
  match m w with
  | (w', Ok a) => f a w'
  | (w', Err e) => (w', Err e)
  end.
Proof. reflexivity. Qed.

Ltac munfold := unfold call_plot_prediction, copy.
Ltac munfold_in H := unfold call_plot_prediction, copy in H.

Ltac mrun :=
  repeat first
    [ progress cbn [load alloc lift store emit mret M_ret heap trace fst snd]
    | rewrite bind_run
    | progress munfold ].

Ltac mrun_in H :=
  repeat first
    [ progress cbn [load alloc lift store emit mret M_ret heap trace fst snd] in H
    | rewrite bind_run in H
    | progress munfold_in H ].

(** Split on the next fallible step of a run. *)
Ltac mcase H :=
  match type of H with
  | match ?x with Ok _ => _ | Err _ => _ end = _ =>
      let E := fresh "E" in destruct x eqn:E; mrun_in H
  end.

Ltac mdone H := injection H as <- <-.

Lemma lookup_snoc {A} (l : list A) x : (l ++ [x]) !! length l = Some x.
Proof. rewrite lookup_app_r by lia. by rewrite Nat.sub_diag. Qed.

Lemma lookup_snoc2 {A} (l : list A) x y :
  (l ++ [x; y]) !! length (l ++ [x]) = Some y.
Proof. change [x; y] with ([x] ++ [y]). rewrite app_assoc. apply lookup_snoc. Qed.

Lemma insert_snoc {A} (l : list A) x y : <[length l:=y]> (l ++ [x]) = l ++ [y].
Proof. rewrite insert_app_r_alt by lia. by rewrite Nat.sub_diag. Qed.

Section ValidationFacts.

Variable plot_prediction :
  list cell → list cell → string → string → TraitLimits → result row.
Variable assign_macro_stages : cell → result cell.
Variable bbch_confusion_matrix :
  DataFrame → string → result (DataFrame * list string).

Lemma stage_loop_inv d keys trait pc tn tu tl ax idx w w' r :
  stage_loop plot_prediction trait pc tn tu tl ax idx
    ((λ k, (k, select_rows "Macro-Stage" k d)) <$> keys) w = (w', r) →
  heap w' = heap w ∧
  ∃ m, trace w' =
         trace w ++ ((λ k, plot_of trait pc (rows (select_rows "Macro-Stage" k d)))
                       <$> take m keys) ∧
       ∀ stats, r = Ok stats →
         m = length keys ∧
         Forall2 (stage_row plot_prediction d trait pc tn tu tl) keys stats ∧
         (keys ≠ [] → ∃ n, ax = AxesArray n ∧ (idx + length keys ≤ n)%nat).
Proof.
  revert idx w w' r. induction keys as [|k keys IH]; intros idx w w' r H.
  - simpl in H. mrun_in H. mdone H. split; [done|]. exists 0%nat.
    split; [by rewrite app_nil_r|]. intros stats [= <-]. split; [done|].
    split; [constructor|done].
  - rewrite fmap_cons in H. cbn [stage_loop] in H. mrun_in H.
    mcase H; [|mdone H; split; [done|]; exists 0%nat;
               split; [by rewrite app_nil_r|done]].
    apply getitem_ok in E as [_ ->].
    mcase H; [|mdone H; split; [done|]; exists 0%nat;
               split; [by rewrite app_nil_r|done]].
    apply getitem_ok in E as [_ ->].
    mcase H; [|mdone H; split; [done|]; exists 0%nat;
               split; [by rewrite app_nil_r|done]].
    mcase H; [|mdone H; split; [done|]; exists 1%nat; split; [done|done]].
    destruct (stage_loop _ _ _ _ _ _ _ _ _ _) as [w1 r1] eqn:E1.
    apply IH in E1 as (Hh & m & Ht & Hok). cbn [heap trace] in Hh, Ht.
    assert (trace w1 = trace w ++
              ((λ k, plot_of trait pc (rows (select_rows "Macro-Stage" k d)))
                 <$> take (S m) (k :: keys))) as Ht'.
    { rewrite Ht. cbn [take]. rewrite fmap_cons. by rewrite <- app_assoc. }
    destruct r1 as [stats|e]; mrun_in H; mdone H.
    + split; [done|]. exists (S m). split; [done|].
      intros ? [= <-]. destruct (Hok stats eq_refl) as (-> & HF & Hax).
      split; [done|]. split.
      * constructor; [|done]. unfold stage_row. eauto.
      * intros _. destruct ax as [|n]; [done|]. exists n. split; [done|].
        match goal with
        | Hax : ax_getitem _ _ = Ok _ |- _ => unfold ax_getitem in Hax
        end.
        case_decide; [|done].
        destruct keys as [|k' keys']; [simpl; lia|].
        destruct Hax as (n' & [= <-] & Hle); [done|]. simpl in *. lia.
    + split; [done|]. exists (S m). split; [done|]. done.
Qed.

Lemma plots_rows_mono trait (R R' : list row → Prop) e :
  (∀ rs, R rs → R' rs) → plots_rows trait R e → plots_rows trait R' e.
Proof. destruct e; simpl; try done. intros HR (rs & c & ? & ? & ?). eauto 6. Qed.

Lemma plots_rows_plot_of trait c (R : list row → Prop) rs :
  R rs → plots_rows trait R (plot_of trait c rs).
Proof. intros. simpl. eauto 6. Qed.

Lemma stage_plots_rows d trait pc keys :
  Forall (plots_rows trait (is_stage_of d)) (stage_plots d trait pc keys).
Proof.
  unfold stage_plots. apply Forall_fmap, Forall_forall. intros k _.
  apply plots_rows_plot_of. by exists k.
Qed.

Lemma plt_subplots_ok n ax :
  plt_subplots n = Ok ax → (1 ≤ n)%nat ∧ ∀ m, ax = AxesArray m → (2 ≤ n)%nat.
Proof.
  destruct n as [|[|n]]; simpl; intros H; try discriminate;
    injection H as <-; split; try lia; intros m; try discriminate; lia.
Qed.

Lemma by_stage_inv df n out_dir trait pc tn tu tl png csv w w' r d :
  heap w !! df = Some d →
  by_stage plot_prediction df n out_dir trait pc tn tu tl png csv w = (w', r) →
  heap w' = heap w ∧
  ∃ evs, trace w' = trace w ++ evs ∧
    Forall (plots_rows trait (is_stage_of d)) evs ∧
    (r = Ok tt →
     ∃ ms stats,
       getitem d "Macro-Stage" = Ok ms ∧
       (1 ≤ n)%nat ∧ (group_keys ms ≠ [] → 2 ≤ n)%nat ∧
       Forall2 (stage_row plot_prediction d trait pc tn tu tl) (group_keys ms) stats ∧
       evs = stage_plots d trait pc (group_keys ms)
             ++ [Savefig (joinpath out_dir (file_stem trait +:+ png));
                 StatsCsv (joinpath out_dir (file_stem trait +:+ csv)) false stats]).
Proof.
  intros Hdf H. unfold by_stage in H. mrun_in H.
  mcase H; [|mdone H; split; [done|]; exists [];
             split; [by rewrite app_nil_r|]; split; [constructor|done]].
  rewrite Hdf in H. mrun_in H.
  mcase H; [|mdone H; split; [done|]; exists [];
             split; [by rewrite app_nil_r|]; split; [constructor|done]].
  apply groupby_ok in E0 as (ms & Hms & ->).
  destruct (stage_loop _ _ _ _ _ _ _ _ _ _) as [w1 r1] eqn:E1.
  apply stage_loop_inv in E1 as (Hh & m & Ht & Hok).
  apply plt_subplots_ok in E as [Hn Hax].
  destruct r1 as [stats|e]; mrun_in H; mdone H; cbn [heap trace].
  - split; [done|]. destruct (Hok stats eq_refl) as (-> & HF & Hn2).
    rewrite firstn_all in Ht. eexists. split.
    + rewrite Ht, <- !app_assoc. reflexivity.
    + split.
      * apply Forall_app. split; [apply stage_plots_rows|].
        repeat constructor.
      * intros _. exists ms, stats. repeat split; try done.
        intros Hne. destruct (Hn2 Hne) as (n' & -> & _). by eapply Hax.
  - split; [done|]. eexists. split; [exact Ht|].
    split; [apply stage_plots_rows|intros; discriminate].
Qed.

Lemma label_macro_stages_run df w d :
  heap w !! df = Some d →
  label_macro_stages assign_macro_stages df w =
  match (ratings ← getitem d "BBCH Rating";
         stages ← traverse assign_macro_stages ratings;
         setitem d bbch_column stages) with
  | Ok d2 => (World (<[df:=d2]> (heap w)) (trace w), Ok tt)
  | Err e => (w, Err e)
  end.
Proof.
  intros Hdf. unfold label_macro_stages. mrun. rewrite Hdf. mrun.
  destruct (getitem d "BBCH Rating") as [ratings|];
    cbn [mbind result_bind]; mrun; [|done].
  destruct (traverse assign_macro_stages ratings) as [stages|];
    cbn [mbind result_bind]; mrun; [|done].
  destruct (setitem d bbch_column stages); mrun; reflexivity.
Qed.

Lemma emit_all_run es w :
  emit_all es w = (World (heap w) (trace w ++ es), Ok tt).
Proof.
  revert w. induction es as [|e es IH]; intros w; simpl.
  - rewrite app_nil_r. by destruct w.
  - mrun. rewrite IH. cbn [heap trace]. by rewrite <- app_assoc.
Qed.

Lemma full_sample_inv df out_dir trait tn tu tl w w' r d1 :
  heap w !! df = Some d1 →
  full_sample plot_prediction df out_dir trait tn tu tl w = (w', r) →
  heap w' = heap w ++ [d1; d1] ∧
  ∃ evs, trace w' = trace w ++ evs ∧
    Forall (plots_rows trait (λ rs, rs = rows d1)) evs ∧
    (r = Ok tt →
     ∃ sa sp,
       trait ∈ columns d1 ∧
       trait +:+ "_all" ∈ columns d1 ∧
       trait +:+ " (Phenology)" ∈ columns d1 ∧
       plot_prediction (cell_at trait <$> rows d1)
         (cell_at (trait +:+ "_all") <$> rows d1) tn tu tl = Ok sa ∧
       plot_prediction (cell_at trait <$> rows d1)
         (cell_at (trait +:+ " (Phenology)") <$> rows d1) tn tu tl = Ok sp ∧
       evs = [plot_of trait (trait +:+ "_all") (rows d1);
              plot_of trait (trait +:+ " (Phenology)") (rows d1);
              Savefig (joinpath out_dir (file_stem trait +:+ "_scatterplot.png"));
              StatsCsv (joinpath out_dir (file_stem trait +:+ "_error_stats.csv")) true
                [<["phenology_considered":=CBool false]> sa;
                 <["phenology_considered":=CBool true]> sp]]).
Proof.
  intros Hdf H. unfold full_sample in H.
  change (plt_subplots 2) with (Ok (AxesArray 2)) in H.
  mrun_in H.
  change (ax_getitem (AxesArray 2) 0) with (Ok tt) in H.
  change (ax_getitem (AxesArray 2) 1) with (Ok tt) in H.
  rewrite Hdf in H. mrun_in H.
  rewrite (lookup_app_l _ _ df) in H by (by eapply lookup_lt_Some).
  rewrite Hdf in H. mrun_in H.
  rewrite (lookup_app_l _ _ (length (heap w))) in H
    by (rewrite length_app; simpl; lia).
  rewrite lookup_snoc in H. mrun_in H.
  rewrite <- app_assoc in H. cbn [app] in H.
  mcase H; [|mdone H; split; [done|]; exists [];
             split; [by rewrite app_nil_r|]; split; [constructor|done]].
  apply getitem_ok in E as [Ht ->].
  mcase H; [|mdone H; split; [done|]; exists [];
             split; [by rewrite app_nil_r|]; split; [constructor|done]].
  apply getitem_ok in E as [Hpa ->].
  mcase H; [|mdone H; split; [done|]; eexists; split; [reflexivity|];
             split; [|done]; repeat constructor; by apply plots_rows_plot_of].
  rewrite lookup_snoc2 in H. mrun_in H.
  rewrite (getitem_in d1 trait) in H by done. mrun_in H.
  mcase H; [|mdone H; split; [done|]; eexists; split; [reflexivity|];
             split; [|done]; repeat constructor; by apply plots_rows_plot_of].
  apply getitem_ok in E0 as [Hpp ->].
  mcase H; mdone H; (split; [done|]); eexists;
    (split; [rewrite <- !app_assoc; reflexivity|]);
    (split; [repeat constructor; by apply plots_rows_plot_of|]); [|done].
  intros _. eexists _, _. repeat split; done.
Qed.

Lemma full_sample_run df out_dir trait tn tu tl w d1 sa sp :
  heap w !! df = Some d1 →
  trait ∈ columns d1 →
  trait +:+ "_all" ∈ columns d1 →
  trait +:+ " (Phenology)" ∈ columns d1 →
  plot_prediction (cell_at trait <$> rows d1)
    (cell_at (trait +:+ "_all") <$> rows d1) tn tu tl = Ok sa →
  plot_prediction (cell_at trait <$> rows d1)
    (cell_at (trait +:+ " (Phenology)") <$> rows d1) tn tu tl = Ok sp →
  full_sample plot_prediction df out_dir trait tn tu tl w =
  (World (heap w ++ [d1; d1])
         (trace w ++ full_sample_events d1 out_dir trait sa sp), Ok tt).
Proof.
  intros Hdf Ht Ha Hp Hsa Hsp. unfold full_sample.
  change (plt_subplots 2) with (Ok (AxesArray 2)).
  mrun.
  change (ax_getitem (AxesArray 2) 0) with (Ok tt).
  change (ax_getitem (AxesArray 2) 1) with (Ok tt).
  rewrite Hdf. mrun.
  rewrite (lookup_app_l _ _ df) by (by eapply lookup_lt_Some).
  rewrite Hdf. mrun.
  rewrite (lookup_app_l _ _ (length (heap w)))
    by (rewrite length_app; simpl; lia).
  rewrite lookup_snoc. mrun.
  rewrite <- app_assoc. cbn [app].
  rewrite !getitem_in by done. mrun. rewrite Hsa. mrun.
  rewrite lookup_snoc2. mrun.
  rewrite !getitem_in by done. mrun. rewrite Hsp. mrun.
  unfold emit. cbn [heap trace]. rewrite <- !app_assoc. reflexivity.
Qed.

Lemma working_copy_run _df trait w d0 :
  heap w !! _df = Some d0 →
  working_copy _df trait w =
  match dropna [trait] d0 with
  | Ok d1 => (World (heap w ++ [d1]) (trace w), Ok (length (heap w)))
  | Err e => (World (heap w ++ [d0]) (trace w), Err e)
  end.
Proof.
  intros H. unfold working_copy. mrun. rewrite H. mrun.
  rewrite lookup_snoc. mrun.
  destruct (dropna [trait] d0); mrun; [|done].
  by rewrite insert_snoc.
Qed.

Lemma stage_validation_inv df out_dir trait tn tu tl w w' r d1 :
  heap w !! df = Some d1 →
  stage_validation plot_prediction assign_macro_stages bbch_confusion_matrix
    df out_dir trait tn tu tl w = (w', r) →
  (∃ d', heap w' = <[df:=d']> (heap w)) ∧
  ∃ evs, trace w' = trace w ++ evs ∧
    Forall (plots_rows trait (labelled_stage_of d1)) evs ∧
    (r = Ok tt → stage_validation_ok plot_prediction assign_macro_stages
      bbch_confusion_matrix d1 out_dir trait tn tu tl evs).
Proof.
  intros Hdf H. unfold stage_validation in H.
  rewrite bind_run, (label_macro_stages_run _ _ _ Hdf) in H.
  assert (df < length (heap w))%nat as Hlt by (by eapply lookup_lt_Some).
  destruct (getitem d1 "BBCH Rating") as [ratings|e] eqn:Er;
    cbn [mbind result_bind] in H;
    [|mdone H; split; [exists d1; by rewrite list_insert_id|];
      exists []; split; [by rewrite app_nil_r|]; split; [constructor|done]].
  destruct (traverse assign_macro_stages ratings) as [stages|e] eqn:Es;
    cbn [mbind result_bind] in H;
    [|mdone H; split; [exists d1; by rewrite list_insert_id|];
      exists []; split; [by rewrite app_nil_r|]; split; [constructor|done]].
  destruct (setitem d1 bbch_column stages) as [d2|e] eqn:Ed;
    [|mdone H; split; [exists d1; by rewrite list_insert_id|];
      exists []; split; [by rewrite app_nil_r|]; split; [constructor|done]].
  assert (∀ rs, is_stage_of d2 rs → labelled_stage_of d1 rs) as Hmono
    by (intros rs ?; by exists stages, d2).
  mrun_in H. rewrite list_lookup_insert_eq in H by done. mrun_in H.
  mcase H; [|mdone H; split; [by exists d2|];
             exists []; split; [by rewrite app_nil_r|]; split; [constructor|done]].
  rename E into Hms. rename a into ms.
  mcase H; [|mdone H; split; [by exists d2|];
             exists []; split; [by rewrite app_nil_r|]; split; [constructor|done]].
  clear E.
  destruct (by_stage _ _ _ _ _ _ _ _ _ _ _ _) as [w1 r1] eqn:E1 in H.
  apply (by_stage_inv _ _ _ _ _ _ _ _ _ _ _ _ _ d2) in E1
    as (Hh1 & evs1 & Ht1 & HF1 & Hok1);
    [|cbn [heap]; by rewrite list_lookup_insert_eq].
  cbn [heap trace] in Hh1, Ht1.
  apply (Forall_impl _ (plots_rows trait (labelled_stage_of d1))) in HF1;
    [|intros e; by apply plots_rows_mono].
  destruct r1 as [[]|e];
    [|mdone H; split; [exists d2; by rewrite Hh1|];
      exists evs1; split; [done|]; split; [done|intros; discriminate]].
  destruct (Hok1 eq_refl) as (ms1 & stats1 & Hms1 & Hn1 & Hn2 & Hst1 & Hev1).
  assert (ms1 = ms) as -> by congruence.
  mrun_in H.
  destruct (by_stage _ _ _ _ _ _ _ _ _ _ _ _) as [w2 r2] eqn:E2 in H.
  apply (by_stage_inv _ _ _ _ _ _ _ _ _ _ _ _ _ d2) in E2
    as (Hh2 & evs2 & Ht2 & HF2 & Hok2);
    [|rewrite Hh1; by rewrite list_lookup_insert_eq].
  apply (Forall_impl _ (plots_rows trait (labelled_stage_of d1))) in HF2;
    [|intros e; by apply plots_rows_mono].
  destruct r2 as [[]|e];
    [|mdone H; split; [exists d2; by rewrite Hh2, Hh1|];
      exists (evs1 ++ evs2); split; [by rewrite Ht2, Ht1, app_assoc|];
      split; [by apply Forall_app|intros; discriminate]].
  destruct (Hok2 eq_refl) as (ms2 & stats2 & Hms2 & _ & _ & Hst2 & Hev2).
  assert (ms2 = ms) as -> by congruence.
  mrun_in H. rewrite Hh2, Hh1, list_lookup_insert_eq in H by done. mrun_in H.
  destruct (bbch_confusion_matrix d2 out_dir) as [[d3 written]|e] eqn:Ec.
  - mrun_in H. rewrite emit_all_run in H.
    cbn [heap trace] in H. mdone H. cbn [heap trace].
    split; [exists d3; by rewrite Hh2, Hh1, list_insert_insert_eq|].
    eexists. split; [rewrite Ht2, Ht1, <- !app_assoc; reflexivity|].
    split.
    + apply Forall_app; split; [done|]. apply Forall_app; split; [done|].
      apply Forall_app; split; [by repeat constructor|].
      apply Forall_fmap, Forall_forall. by intros.
    + intros _. exists ratings, stages, d2, ms, stats1, stats2, d3, written.
      repeat split; try done.
      * destruct (group_keys ms) as [|k ks] eqn:Ek.
        -- rewrite <- (group_keys_length ms), Ek in Hn1. simpl in Hn1. lia.
        -- by apply Hn2.
      * rewrite Hev1, Hev2. by rewrite <- !app_assoc.
  - mdone H. cbn [heap trace].
    split; [exists d2; by rewrite Hh2, Hh1|].
    eexists. split; [rewrite Ht2, Ht1, <- !app_assoc; reflexivity|].
    split; [|intros; discriminate].
    apply Forall_app; split; [done|]. apply Forall_app; split; [done|].
    by repeat constructor.
Qed.

Lemma validate_data_inv _df out_dir trait tn tu tl w w' r d0 :
  heap w !! _df = Some d0 →
  validate_data plot_prediction assign_macro_stages bbch_confusion_matrix
    _df out_dir trait tn tu tl w = (w', r) →
  (∃ hs, heap w' = heap w ++ hs) ∧
  ∃ evs, trace w' = trace w ++ evs ∧
    Forall (plots_rows trait (working_rows d0 trait)) evs ∧
    (r = Ok tt →
     ∃ d1 evs1 evs2,
       dropna [trait] d0 = Ok d1 ∧
       full_sample_ok plot_prediction d1 out_dir trait tn tu tl evs1 ∧
       stage_validation_ok plot_prediction assign_macro_stages
      bbch_confusion_matrix d1 out_dir trait tn tu tl evs2 ∧
       evs = evs1 ++ evs2).
Proof.
  intros Hdf H. unfold validate_data in H.
  rewrite bind_run, (working_copy_run _ _ _ _ Hdf) in H.
  destruct (dropna [trait] d0) as [d1|e] eqn:Ed;
    [|mdone H; split; [by eexists|]; exists [];
      split; [by rewrite app_nil_r|]; split; [constructor|intros; discriminate]].
  rewrite bind_run in H.
  destruct (full_sample _ _ _ _ _ _ _ _) as [w1 r1] eqn:E1.
  apply (full_sample_inv _ _ _ _ _ _ _ _ _ d1) in E1
    as (Hh1 & evs1 & Ht1 & HF1 & Hok1); [|apply lookup_snoc].
  cbn [heap trace] in Hh1, Ht1.
  apply (Forall_impl _ (plots_rows trait (working_rows d0 trait))) in HF1;
    [|intros e; apply plots_rows_mono; intros rs Hrs; cbv beta in Hrs;
      subst rs; unfold working_rows; eauto].
  destruct r1 as [[]|e];
    [|mdone H; split; [rewrite Hh1, <- app_assoc; by eexists|];
      exists evs1; split; [done|]; split; [done|intros; discriminate]].
  destruct (Hok1 eq_refl) as (sa & sp & Hc1 & Hc2 & Hc3 & Hsa & Hsp & Hev1).
  destruct (stage_validation _ _ _ _ _ _ _ _ _ _) as [w2 r2] eqn:E2 in H.
  apply (stage_validation_inv _ _ _ _ _ _ _ _ _ d1) in E2
    as ([d' Hh2] & evs2 & Ht2 & HF2 & Hok2);
    [|rewrite Hh1, lookup_app_l by (rewrite length_app; simpl; lia);
      apply lookup_snoc].
  apply (Forall_impl _ (plots_rows trait (working_rows d0 trait))) in HF2;
    [|intros e; apply plots_rows_mono; intros rs ?; unfold working_rows; eauto].
  mdone H. split.
  - rewrite Hh2, Hh1. rewrite insert_app_l by (rewrite length_app; simpl; lia).
    rewrite insert_snoc, <- app_assoc. by eexists.
  - exists (evs1 ++ evs2). split; [by rewrite Ht2, Ht1, app_assoc|].
    split; [by apply Forall_app|].
    intros Hr. exists d1, evs1, evs2. split; [done|]. split; [|auto].
    by exists sa, sp.
Qed.

(** *** The working rows, traced back to the caller's table *)


Lemma complete_on_single trait r :
  complete_on [trait] r = true ↔ isna (cell_at trait r) = false.
Proof.
  unfold complete_on. simpl. rewrite andb_true_r.
  by destruct (isna (cell_at trait r)).
Qed.



Lemma fmap_cell_at_zip_insert_ne c c' (l : list row) vals :
  c ≠ c' → length vals = length l →
  cell_at c' <$> zip_with (λ r v, <[c:=v]> r) l vals = cell_at c' <$> l.
Proof.
  intros Hne. revert vals.
  induction l as [|r l IH]; intros [|v vals]; simpl; try done.
  intros [= Hlen]. csimpl. by rewrite cell_at_insert_ne, IH.
Qed.

Lemma macro_stage_after_label d1 stages d2 ms :
  setitem d1 bbch_column stages = Ok d2 →
  getitem d2 "Macro-Stage" = Ok ms →
  "Macro-Stage" ∈ columns d1 ∧ ms = cell_at "Macro-Stage" <$> rows d1.
Proof.
  intros (Hlen & Hc & Hr)%setitem_ok [Hin ->]%getitem_ok. split.
  - rewrite Hc in Hin. by apply with_column_inv in Hin as [?|?].
  - rewrite Hr. by apply fmap_cell_at_zip_insert_ne.
Qed.

Lemma validate_data_ok_requires _df out_dir trait tn tu tl w d0 :
  heap w !! _df = Some d0 →
  (validate_data plot_prediction assign_macro_stages bbch_confusion_matrix
     _df out_dir trait tn tu tl w).2 = Ok tt →
  Forall (λ c, c ∈ columns d0) (expected_columns trait) ∧
  (2 ≤ nunique (cell_at "Macro-Stage" <$> kept_rows trait d0))%nat.
Proof.
  intros Hdf Hr.
  destruct (validate_data _ _ _ _ _ _ _ _ _ _) as [w' r] eqn:E. simpl in Hr. subst r.
  apply (validate_data_inv _ _ _ _ _ _ _ _ _ d0) in E as (_ & evs & _ & _ & Hok);
    [|done].
  destruct (Hok eq_refl) as (d1 & evs1 & evs2 & [_ ->]%dropna_ok & Hfs & Hsv & _).
  destruct Hfs as (sa & sp & Hc1 & Hc2 & Hc3 & _).
  destruct Hsv as (ratings & stages & d2 & ms & _ & _ & _ & _ &
                   [Hc4 _]%getitem_ok & _ & Hd2 & Hms & Hn & _).
  destruct (macro_stage_after_label _ _ _ _ Hd2 Hms) as [Hc5 ->].
  split; [|done]. unfold expected_columns. by repeat constructor.
Qed.

(** C4. With a single macro stage in the filtered table, [plt.subplots]
    hands back a bare Axes object and the first [ax[idx]] of the loop at
    line 103 raises: the run ends in an exception instead of producing the
    one-row tables of the two stratifications. *)
Theorem single_stage_raises _df out_dir trait tn tu tl w d0 :
  heap w !! _df = Some d0 →
  nunique (cell_at "Macro-Stage" <$> kept_rows trait d0) = 1%nat →
  ∃ e, (validate_data plot_prediction assign_macro_stages bbch_confusion_matrix
          _df out_dir trait tn tu tl w).2 = Err e.
Proof.
  intros Hdf Hn.
  destruct (validate_data _ _ _ _ _ _ _ _ _ _).2 as [[]|e] eqn:E; [|by exists e].
  apply (validate_data_ok_requires _ _ _ _ _ _ _ d0) in E as [_ ?]; [lia|done].
Qed.

(** C8. [validate_data] works on a copy: the table behind the caller's
    reference, like every other table that existed before the call, is the
    same after the run, whether the run ends normally or in an exception. *)
Theorem validate_data_leaves_tables _df out_dir trait tn tu tl w ref d :
  heap w !! ref = Some d →
  heap (validate_data plot_prediction assign_macro_stages bbch_confusion_matrix
          _df out_dir trait tn tu tl w).1 !! ref = Some d.
Proof.
  intros Href.
  destruct (heap w !! _df) as [d0|] eqn:Hdf.
  - destruct (validate_data _ _ _ _ _ _ _ _ _ _) as [w' r] eqn:E.
    apply (validate_data_inv _ _ _ _ _ _ _ _ _ d0) in E as ([hs Hh] & _); [|done].
    cbn [fst]. rewrite Hh. by apply lookup_app_l_Some.
  - unfold validate_data, working_copy. mrun. rewrite Hdf. mrun. done.
Qed.

(** C2. Whenever the three columns are present and the metric calculator
    answers, the run emits one full-sample table of exactly two rows: the
    statistics of [<trait>_all] tagged [phenology_considered = False], then
    those of [<trait> (Phenology)] tagged [True], written with its index to
    the file whose stem is the trait with blanks replaced by hyphens, which
    is the trait itself for [lai], [ccc] and [cab]. *)
Theorem full_sample_table _df out_dir trait tn tu tl w d0 sa sp :
  heap w !! _df = Some d0 →
  trait ∈ columns d0 →
  trait +:+ "_all" ∈ columns d0 →
  trait +:+ " (Phenology)" ∈ columns d0 →
  plot_prediction (cell_at trait <$> kept_rows trait d0)
    (cell_at (trait +:+ "_all") <$> kept_rows trait d0) tn tu tl = Ok sa →
  plot_prediction (cell_at trait <$> kept_rows trait d0)
    (cell_at (trait +:+ " (Phenology)") <$> kept_rows trait d0) tn tu tl = Ok sp →
  (∃ rest,
     trace (validate_data plot_prediction assign_macro_stages bbch_confusion_matrix
              _df out_dir trait tn tu tl w).1 =
     trace w
     ++ [PlotPrediction (cell_at trait <$> kept_rows trait d0)
           (cell_at (trait +:+ "_all") <$> kept_rows trait d0);
         PlotPrediction (cell_at trait <$> kept_rows trait d0)
           (cell_at (trait +:+ " (Phenology)") <$> kept_rows trait d0);
         Savefig (joinpath out_dir (file_stem trait +:+ "_scatterplot.png"));
         StatsCsv (joinpath out_dir (file_stem trait +:+ "_error_stats.csv")) true
           [<["phenology_considered":=CBool false]> sa;
            <["phenology_considered":=CBool true]> sp]]
     ++ rest) ∧
  (trait ∈ ["lai"; "ccc"; "cab"] → file_stem trait = trait).
Proof.
  intros Hdf Hc1 Hc2 Hc3 Hsa Hsp. split.
  - unfold validate_data. rewrite bind_run, (working_copy_run _ _ _ _ Hdf).
    rewrite dropna_in by (by constructor).
    set (d1 := Frame (columns d0) (filter _ (rows d0))).
    rewrite bind_run.
    rewrite (full_sample_run _ _ _ _ _ _ _ d1 sa sp);
      [|apply lookup_snoc|done..].
    destruct (stage_validation _ _ _ _ _ _ _ _ _ _) as [w2 r2] eqn:E2.
    apply (stage_validation_inv _ _ _ _ _ _ _ _ _ d1) in E2
      as (_ & evs2 & Ht2 & _);
      [|cbn [heap]; rewrite lookup_app_l by (rewrite length_app; simpl; lia);
        apply lookup_snoc].
    exists evs2. cbn [fst trace] in *. rewrite Ht2. by rewrite <- app_assoc.
  - intros Hin. repeat (apply elem_of_cons in Hin as [->|Hin]; [done|]).
    by apply not_elem_of_nil in Hin.
Qed.



End ValidationFacts.

(** ** The entry point *)




Lemma setitem_nrows d c vals d' : setitem d c vals = Ok d' → nrows d' = nrows d.
Proof.
  intros (Hlen & _ & Hr)%setitem_ok. unfold nrows. rewrite Hr.
  by rewrite length_zip_with_l_eq.
Qed.




Section PipelineFacts.

Variable plot_prediction :
  list cell → list cell → string → string → TraitLimits → result row.
Variable assign_macro_stages : cell → result cell.
Variable bbch_confusion_matrix :
  DataFrame → string → result (DataFrame * list string).
Variable join_with_insitu :
  DataFrame → DataFrame → DataFrame → list string → result DataFrame.

Abbreviation process_trait' :=
  (process_trait plot_prediction assign_macro_stages bbch_confusion_matrix
     join_with_insitu).

Lemma process_trait_tables_err res_dir lai_all ccc_all bbch inv_ref trait w inv e :
  heap w !! inv_ref = Some inv →
  trait_tables lai_all ccc_all inv trait = Err e →
  (process_trait' res_dir lai_all ccc_all bbch inv_ref trait w).2 = Err e.
Proof.
  intros Hinv Ht. unfold process_trait. mrun. rewrite Hinv. mrun. by rewrite Ht.
Qed.

Lemma process_trait_join_err res_dir lai_all ccc_all bbch inv_ref trait w inv
    insitu inv' e :
  heap w !! inv_ref = Some inv →
  trait_tables lai_all ccc_all inv trait = Ok (insitu, inv') →
  join_with_insitu insitu bbch inv' [trait] = Err e →
  (process_trait' res_dir lai_all ccc_all bbch inv_ref trait w).2 = Err e.
Proof.
  intros Hinv Ht Hj. unfold process_trait. mrun. rewrite Hinv. mrun.
  rewrite Ht. mrun. by rewrite Hj.
Qed.



End PipelineFacts.

(** ** Claims on the joined and derived tables *)



(** ** The claims on the test tables *)

Import Fixture.

Ltac in_list := repeat first [apply list_elem_of_here | apply list_elem_of_further].

Lemma head_default_in {A} (d : A) (l : list A) :
  (0 < length l)%nat → default d (head l) ∈ l.
Proof. destruct l; simpl; [lia|]. intros _. apply list_elem_of_here. Qed.



Lemma full_sample_table_witness :
  (∃ rest,
     trace (validate two_stages).1 =
     []
     ++ [PlotPrediction (cell_at "cab" <$> kept_rows "cab" two_stages)
           (cell_at "cab_all" <$> kept_rows "cab" two_stages);
         PlotPrediction (cell_at "cab" <$> kept_rows "cab" two_stages)
           (cell_at "cab (Phenology)" <$> kept_rows "cab" two_stages);
         Savefig (joinpath "out" (file_stem "cab" +:+ "_scatterplot.png"));
         StatsCsv (joinpath "out" (file_stem "cab" +:+ "_error_stats.csv")) true
           [<["phenology_considered":=CBool false]> {[ "n" := CInt 2 ]};
            <["phenology_considered":=CBool true]> {[ "n" := CInt 2 ]}]]
     ++ rest) ∧
  ("cab" ∈ ["lai"; "ccc"; "cab"] → file_stem "cab" = "cab").
Proof.
  apply (full_sample_table count_pairs keep_rating one_matrix
           0 "out" "cab" "Leaf Chlorophyll Content" "ug/cm2" limits
           (start two_stages) two_stages {[ "n" := CInt 2 ]} {[ "n" := CInt 2 ]}).
  - reflexivity.
  - vm_compute. in_list.
  - vm_compute. in_list.
  - vm_compute. in_list.
  - vm_compute. reflexivity.
  - vm_compute. reflexivity.
Defined.

Lemma single_stage_raises_witness :
  ∃ e, (validate one_stage).2 = Err e.
Proof.
  apply (single_stage_raises count_pairs keep_rating one_matrix
           0 "out" "cab" "Leaf Chlorophyll Content" "ug/cm2" limits
           (start one_stage) one_stage).
  - reflexivity.
  - vm_compute. reflexivity.
Defined.

(** The exception of the single-stage run, and what had been written. *)
Example single_stage_run :
  (validate one_stage).2 = Err (TypeError "'Axes' object is not subscriptable") ∧
  ∃ t p p' stats,
    trace (validate one_stage).1 =
    [PlotPrediction t p; PlotPrediction t p';
     Savefig "out/cab_scatterplot.png";
     StatsCsv "out/cab_error_stats.csv" true stats].
Proof. split; [by vm_compute|]. do 4 eexists. vm_compute. reflexivity. Qed.

Lemma validate_data_leaves_tables_witness :
  heap (validate two_stages).1 !! 0%nat = Some two_stages.
Proof.
  apply (validate_data_leaves_tables count_pairs keep_rating one_matrix
           0 "out" "cab" "Leaf Chlorophyll Content" "ug/cm2" limits
           (start two_stages) 0%nat two_stages).
  reflexivity.
Defined.









(** * Further properties *)

(** ** File stems and point identifiers *)

Lemma prefix_empty s : String.prefix "" s = true.
Proof. by destruct s. Qed.

Lemma file_stem_cons c t :
  file_stem (String c t) = String (hyphen_for_blank c) (file_stem t).
Proof.
  unfold file_stem, PyStr.replace, hyphen_for_blank.
  cbn [PyStr.replace_from String.prefix String.length Nat.sub].
  rewrite prefix_empty.
  destruct (ascii_dec " " c) as [<-|Hne]; [done|].
  destruct (Ascii.eqb_spec c " ") as [->|_]; [done|done].
Qed.

(** X1. The stem of the output files is the trait with every blank turned
    into a hyphen, character by character: it has the length of the trait,
    contains no blank, and is the trait itself when the trait has none. *)
Theorem file_stem_replaces_blanks t :
  String.length (file_stem t) = String.length t ∧
  (∀ i, String.get i (file_stem t) = hyphen_for_blank <$> String.get i t) ∧
  has_char " " (file_stem t) = false ∧
  (has_char " " t = false → file_stem t = t).
Proof.
  induction t as [|c t (IH1 & IH2 & IH3 & IH4)]; [by repeat split|].
  rewrite file_stem_cons. repeat split.
  - simpl. by rewrite IH1.
  - intros [|i]; simpl; [done|apply IH2].
  - simpl. rewrite IH3, orb_false_r. unfold hyphen_for_blank.
    destruct (Ascii.eqb_spec c " ") as [->|Hne]; [done|].
    by apply Ascii.eqb_neq.
  - simpl. intros [Hc Ht]%orb_false_elim. rewrite (IH4 Ht).
    unfold hyphen_for_blank. by rewrite Hc.
Qed.

Lemma file_stem_replaces_blanks_witness :
  has_char " " "cab" = false ∧ file_stem "cab" = "cab".
Proof.
  split; [reflexivity|].
  apply (proj2 (proj2 (proj2 (file_stem_replaces_blanks "cab")))). reflexivity.
Defined.

Lemma split_cons_sep sep s :
  PyStr.split sep (String sep s) = "" :: PyStr.split sep s.
Proof. simpl. by rewrite Ascii.eqb_refl. Qed.

Lemma split_not_nil sep s : PyStr.split sep s ≠ [].
Proof.
  induction s as [|c s IH]; simpl; [done|].
  destruct (Ascii.eqb c sep); [done|]. by destruct (PyStr.split sep s).
Qed.

Lemma join_cons sep w ws :
  ws ≠ [] → PyStr.join sep (w :: ws) = w +:+ sep +:+ PyStr.join sep ws.
Proof. by destruct ws. Qed.

(** Splitting and joining again gives the string back. *)
Lemma join_split sep s :
  PyStr.join (String sep "") (PyStr.split sep s) = s.
Proof.
  induction s as [|c s IH]; [done|]. simpl.
  destruct (Ascii.eqb_spec c sep) as [->|Hne].
  - rewrite join_cons by apply split_not_nil. simpl. by rewrite IH.
  - pose proof (split_not_nil sep s) as Hnil.
    destruct (PyStr.split sep s) as [|w ws]; [done|].
    destruct ws as [|w' ws].
    + simpl in *. by rewrite IH.
    + rewrite join_cons in IH by done. rewrite join_cons by done.
      simpl. by rewrite <- IH.
Qed.

Lemma split_fields_free sep s :
  Forall (λ w, has_char sep w = false) (PyStr.split sep s).
Proof.
  induction s as [|c s IH]; simpl; [by repeat constructor|].
  destruct (Ascii.eqb_spec c sep) as [->|Hne]; [by constructor|].
  destruct IH as [|w ws Hw Hws]; constructor; try done.
  - simpl. by apply orb_false_intro; [apply Ascii.eqb_neq|].
  - simpl. rewrite Hw, orb_false_r. by apply Ascii.eqb_neq.
Qed.

Lemma split_app_free sep w s :
  has_char sep w = false →
  PyStr.split sep (w +:+ String sep s) = w :: PyStr.split sep s.
Proof.
  induction w as [|c w IH]; simpl.
  - intros _. by rewrite Ascii.eqb_refl.
  - intros [Hc Hw]%orb_false_elim. rewrite Hc, (IH Hw). done.
Qed.

Lemma split_free sep w : has_char sep w = false → PyStr.split sep w = [w].
Proof.
  induction w as [|c w IH]; simpl; [done|].
  intros [Hc Hw]%orb_false_elim. by rewrite Hc, (IH Hw).
Qed.

(** Joining separator-free fields and splitting again gives the fields
    back. *)
Lemma split_join sep parts :
  parts ≠ [] → Forall (λ w, has_char sep w = false) parts →
  PyStr.split sep (PyStr.join (String sep "") parts) = parts.
Proof.
  induction parts as [|w ws IH]; [done|]. intros _ [Hw Hws]%Forall_cons.
  destruct ws as [|w' ws]; [by apply split_free|].
  rewrite join_cons by done.
  change (String sep "" +:+ ?s) with (String sep s).
  rewrite split_app_free by done. by rewrite IH.
Qed.

Lemma append_cons x (a b : string) : String x a +:+ b = String x (a +:+ b).
Proof. reflexivity. Qed.

Lemma append_nil_r (a : string) : a +:+ "" = a.
Proof. induction a as [|x a IH]; [done|]. by rewrite append_cons, IH. Qed.

Lemma append_assoc (a b c : string) : (a +:+ b) +:+ c = a +:+ (b +:+ c).
Proof. induction a as [|x a IH]; [done|]. by rewrite !append_cons, IH. Qed.

Lemma join_take_prefix sep n parts :
  ∃ rest, PyStr.join sep parts = PyStr.join sep (take n parts) +:+ rest.
Proof.
  revert n. induction parts as [|w ws IH]; intros n.
  - exists "". by destruct n.
  - destruct n as [|n]; [by exists (PyStr.join sep (w :: ws))|].
    destruct ws as [|w' ws].
    + exists "". destruct n; simpl; by rewrite append_nil_r.
    + destruct (IH n) as [rest Hrest]. rewrite join_cons by done.
      destruct n as [|n].
      * exists (sep +:+ PyStr.join sep (w' :: ws)). done.
      * exists rest. rewrite Hrest.
        change (take (S (S n)) (w :: w' :: ws)) with (w :: take (S n) (w' :: ws)).
        rewrite (join_cons sep w (take (S n) (w' :: ws))) by done.
        by rewrite !append_assoc.
Qed.

Section PointIdFacts.

Variable repr_float : spec_float → string.

(** X2. The point identifier of a plot label made of underscore-separated
    fields consists of its first two fields: a label with one or two
    fields is its own identifier, any further field is cut off. *)
Theorem point_id_first_two_fields parts :
  parts ≠ [] →
  Forall (λ w, has_char "_" w = false) parts →
  point_id_of repr_float (CStr (PyStr.join "_" parts))
  = CStr (PyStr.join "_" (take 2 parts)).
Proof.
  intros Hne Hfree. unfold point_id_of. cbn [py_str].
  by rewrite (split_join "_"%char parts Hne Hfree).
Qed.

(** X3. Whatever the plot label, its point identifier is a prefix of the
    label's text, and deriving an identifier from an identifier changes
    nothing. *)
Theorem point_id_prefix_idempotent x :
  ∃ s, point_id_of repr_float x = CStr s ∧
       (∃ rest, py_str repr_float x = s +:+ rest) ∧
       point_id_of repr_float (CStr s) = CStr s.
Proof.
  eexists. split; [reflexivity|]. split.
  - destruct (join_take_prefix "_" 2 (PyStr.split "_" (py_str repr_float x)))
      as [rest Hrest].
    exists rest. rewrite <- Hrest. by rewrite (join_split "_"%char).
  - unfold point_id_of at 1. cbn [py_str].
    rewrite (split_join "_"%char).
    + by rewrite take_take.
    + pose proof (split_not_nil "_"%char (py_str repr_float x)).
      by destruct (PyStr.split _ _).
    + apply Forall_take, split_fields_free.
Qed.

End PointIdFacts.

Lemma point_id_first_two_fields_witness :
  point_id_of fixed_repr (CStr (PyStr.join "_" ["F1"; "P2"; "a"]))
  = CStr (PyStr.join "_" (take 2 ["F1"; "P2"; "a"])).
Proof.
  apply (point_id_first_two_fields fixed_repr ["F1"; "P2"; "a"]).
  - discriminate.
  - repeat constructor.
Defined.

(** ** The loader *)


Lemma getattr_ok d c v : getattr d c = Ok v → c ∈ columns d.
Proof. unfold getattr. by case_decide. Qed.

Lemma getattr_missing d c : c ∉ columns d → getattr d c = Err (AttributeError c).
Proof. intros. unfold getattr. by rewrite decide_False. Qed.

Lemma getitem_missing d c : c ∉ columns d → getitem d c = Err (KeyError c).
Proof. intros. unfold getitem. by rewrite decide_False. Qed.

Lemma not_in_with_column c c' cols : c' ≠ c → c' ∉ cols → c' ∉ with_column c cols.
Proof. intros ?? [?|?]%with_column_inv; done. Qed.

Lemma setitem_len d c vals :
  length vals = length (rows d) →
  setitem d c vals = Ok (Frame (with_column c (columns d))
                               (zip_with (λ r v, <[c:=v]> r) (rows d) vals)).
Proof. intros. unfold setitem. by rewrite decide_True. Qed.

Section LoaderErrors.

Variable repr_float : spec_float → string.



Lemma patch_lai_needs lai lai' :
  patch_lai repr_float 2019 lai = Ok lai' →
  "Plot" ∈ columns lai ∧ "field" ∈ columns lai.
Proof.
  unfold patch_lai. rewrite decide_True by done. intros H. ok_inv H.
  apply getattr_ok in E, E1. apply setitem_ok in E0 as (_ & Hc & _).
  rewrite Hc in E1. simpl in E, E1.
  apply with_column_inv in E as [?|E]; [done|].
  apply with_column_inv in E1 as [?|E1]; [done|].
  by apply with_column_inv in E1 as [?|E1].
Qed.

Lemma patch_ccc_needs ccc ccc' :
  patch_ccc repr_float 2019 ccc = Ok ccc' →
  "Plot" ∈ columns ccc ∧ "field" ∈ columns ccc ∧ "CCC [g/m2]" ∈ columns ccc.
Proof.
  unfold patch_ccc. rewrite decide_True by done. intros H. ok_inv H.
  apply getattr_ok in E, E1. apply getitem_ok in E3 as [E3 _].
  apply setitem_ok in E0 as (_ & Hc0 & _). apply setitem_ok in E2 as (_ & Hc2 & _).
  rewrite Hc0 in E1. simpl in E, E1, E3. rewrite Hc2, Hc0 in E3. simpl in E3.
  apply with_column_inv in E as [?|E]; [done|].
  apply with_column_inv in E1 as [?|E1]; [done|].
  apply with_column_inv in E1 as [?|E1]; [done|].
  repeat (apply with_column_inv in E3 as [?|E3]; [done|]).
  done.
Qed.

(** X4. A 2019 table without its [Plot] column, or with [Plot] but without
    [field], is rejected with an [AttributeError] naming the column, since
    both are read as attributes; a 2019 CCC table that has both but lacks
    [CCC [g/m2]] is rejected with a [KeyError]. *)
Theorem patch_2019_missing_column lai ccc :
  ("Plot" ∉ columns lai →
   patch_lai repr_float 2019 lai = Err (AttributeError "Plot")) ∧
  ("Plot" ∈ columns lai → "field" ∉ columns lai →
   patch_lai repr_float 2019 lai = Err (AttributeError "field")) ∧
  ("Plot" ∉ columns ccc →
   patch_ccc repr_float 2019 ccc = Err (AttributeError "Plot")) ∧
  ("Plot" ∈ columns ccc → "field" ∉ columns ccc →
   patch_ccc repr_float 2019 ccc = Err (AttributeError "field")) ∧
  ("Plot" ∈ columns ccc → "field" ∈ columns ccc → "CCC [g/m2]" ∉ columns ccc →
   patch_ccc repr_float 2019 ccc = Err (KeyError "CCC [g/m2]")).
Proof.
  repeat split.
  - intros H. unfold patch_lai. rewrite decide_True by done. cbv zeta.
    rewrite getattr_missing; [done|]. simpl. by apply not_in_with_column.
  - intros Hp Hf. unfold patch_lai. rewrite decide_True by done. cbv zeta.
    rewrite getattr_in by (simpl; by apply with_column_mono).
    cbn [mbind result_bind].
    rewrite setitem_len by (simpl; by rewrite !length_fmap).
    cbn [mbind result_bind].
    rewrite getattr_missing; [done|]. simpl. by repeat apply not_in_with_column.
  - intros H. unfold patch_ccc. rewrite decide_True by done. cbv zeta.
    rewrite getattr_missing; [done|]. simpl. by apply not_in_with_column.
  - intros Hp Hf. unfold patch_ccc. rewrite decide_True by done. cbv zeta.
    rewrite getattr_in by (simpl; by apply with_column_mono).
    cbn [mbind result_bind].
    rewrite setitem_len by (simpl; by rewrite !length_fmap).
    cbn [mbind result_bind].
    rewrite getattr_missing; [done|]. simpl. by repeat apply not_in_with_column.
  - intros Hp Hf Hc. unfold patch_ccc. rewrite decide_True by done. cbv zeta.
    rewrite getattr_in by (simpl; by apply with_column_mono).
    cbn [mbind result_bind].
    rewrite setitem_len by (simpl; by rewrite !length_fmap).
    cbn [mbind result_bind].
    rewrite getattr_in by (simpl; by repeat apply with_column_mono).
    cbn [mbind result_bind].
    rewrite setitem_len by (simpl; by rewrite !length_fmap).
    cbn [mbind result_bind].
    rewrite getitem_missing; [done|].
    simpl. by repeat apply not_in_with_column.
Qed.




End LoaderErrors.

(** ** Runs of [validate_data]: failures and outputs *)

Lemma dropna_missing c d : c ∉ columns d → dropna [c] d = Err (KeyError c).
Proof.
  intros Hc. unfold dropna.
  replace (filter (λ c0, c0 ∉ columns d) [c]) with [c]; [done|].
  rewrite filter_cons, decide_True by done. by rewrite filter_nil.
Qed.

Lemma dropna_working_frame trait d0 :
  trait ∈ columns d0 → dropna [trait] d0 = Ok (working_frame trait d0).
Proof. intros. rewrite dropna_in by (by constructor). done. Qed.

Lemma omap_none {A B} (f : A → option B) (l : list A) :
  Forall (λ x, f x = None) l → omap f l = [].
Proof.
  induction 1 as [|x l Hx _ IH]; [done|].
  change (omap f (x :: l)) with
    (match f x with Some y => y :: omap f l | None => omap f l end).
  by rewrite Hx.
Qed.

Lemma omap_some {A B} (f : A → option B) (g : B → A) (l : list B) :
  (∀ y, f (g y) = Some y) → omap f (g <$> l) = l.
Proof.
  intros Hf. induction l as [|y l IH]; [done|]. rewrite fmap_cons.
  change (omap f (g y :: (g <$> l))) with
    (match f (g y) with Some z => z :: omap f (g <$> l) | None => omap f (g <$> l) end).
  by rewrite Hf, IH.
Qed.

Lemma omap_written_stage_plots d trait pc keys :
  omap written_path (stage_plots d trait pc keys) = [].
Proof. apply omap_none. unfold stage_plots. by apply Forall_fmap, Forall_true. Qed.

Lemma omap_written_artifacts (written : list string) :
  omap written_path (Artifact <$> written) = written.
Proof. by apply omap_some. Qed.

Lemma filter_all {A} (P : A → Prop) `{∀ x, Decision (P x)} (l : list A) :
  Forall P l → filter P l = l.
Proof.
  induction 1 as [|x l Hx _ IH]; [done|]. by rewrite filter_cons_True, IH.
Qed.

Lemma filter_none {A} (P : A → Prop) `{∀ x, Decision (P x)} (l : list A) :
  Forall (λ x, ¬ P x) l → filter P l = [].
Proof.
  induction 1 as [|x l Hx _ IH]; [done|]. by rewrite filter_cons_False, IH.
Qed.

Lemma metric_stage_plots d trait pc keys :
  length (filter (λ e, is_metric_request e = true) (stage_plots d trait pc keys))
  = length keys.
Proof.
  rewrite filter_all.
  - unfold stage_plots. by rewrite length_fmap.
  - unfold stage_plots. by apply Forall_fmap, Forall_true.
Qed.

Lemma metric_artifacts (written : list string) :
  filter (λ e, is_metric_request e = true) (Artifact <$> written) = [].
Proof. apply filter_none. by apply Forall_fmap, Forall_true. Qed.

(** The files among the events of a completed run. *)
Lemma omap_written_validation d1 d2 out_dir trait sa sp keys stats1 stats2
    (artifacts : list string) :
  omap written_path
    (full_sample_events d1 out_dir trait sa sp
     ++ stage_plots d2 trait (trait +:+ " (Phenology)") keys
     ++ [Savefig (joinpath out_dir
                    (file_stem trait +:+ "_scatterplot_pheno_phases.png"));
         StatsCsv (joinpath out_dir
                     (file_stem trait +:+ "_errors_pheno_phases.csv")) false stats1]
     ++ stage_plots d2 trait (trait +:+ "_all") keys
     ++ [Savefig (joinpath out_dir
                    (file_stem trait +:+ "_scatterplot_pheno_phases_all.png"));
         StatsCsv (joinpath out_dir
                     (file_stem trait +:+ "_errors_pheno_phases_all.csv")) false stats2]
     ++ [ConfusionMatrix d2 out_dir]
     ++ (Artifact <$> artifacts))
  = validation_files out_dir trait ++ artifacts.
Proof.
  rewrite !omap_app, !omap_written_stage_plots, omap_written_artifacts.
  reflexivity.
Qed.

Section ValidationRuns.

Variable plot_prediction :
  list cell → list cell → string → string → TraitLimits → result row.
Variable assign_macro_stages : cell → result cell.
Variable bbch_confusion_matrix :
  DataFrame → string → result (DataFrame * list string).

Abbreviation validate_data' :=
  (validate_data plot_prediction assign_macro_stages bbch_confusion_matrix).

(** X6. When the joined table has no column of the trait, [validate_data]
    raises [KeyError] at line 53: no metric has been requested and no file
    written. *)
Theorem validate_data_missing_trait _df out_dir trait tn tu tl w d0 :
  heap w !! _df = Some d0 →
  trait ∉ columns d0 →
  (validate_data plot_prediction assign_macro_stages bbch_confusion_matrix
     _df out_dir trait tn tu tl w).2 = Err (KeyError trait) ∧
  trace (validate_data plot_prediction assign_macro_stages bbch_confusion_matrix
           _df out_dir trait tn tu tl w).1 = trace w.
Proof.
  intros Hdf Hc. unfold validate_data.
  rewrite bind_run, (working_copy_run _ _ _ _ Hdf), (dropna_missing _ _ Hc).
  done.
Qed.

(** The run up to line 90, when the full sample can be evaluated. *)
Lemma validate_data_after_full_sample _df out_dir trait tn tu tl w d0 sa sp :
  heap w !! _df = Some d0 →
  trait ∈ columns d0 →
  trait +:+ "_all" ∈ columns d0 →
  trait +:+ " (Phenology)" ∈ columns d0 →
  plot_prediction (cell_at trait <$> kept_rows trait d0)
    (cell_at (trait +:+ "_all") <$> kept_rows trait d0) tn tu tl = Ok sa →
  plot_prediction (cell_at trait <$> kept_rows trait d0)
    (cell_at (trait +:+ " (Phenology)") <$> kept_rows trait d0) tn tu tl = Ok sp →
  validate_data' _df out_dir trait tn tu tl w =
  stage_validation plot_prediction assign_macro_stages bbch_confusion_matrix
    (length (heap w)) out_dir trait tn tu tl
    (World (heap w ++ [working_frame trait d0] ++ [working_frame trait d0;
                                                     working_frame trait d0])
           (trace w ++ full_sample_events (working_frame trait d0) out_dir trait sa sp)).
Proof.
  intros Hdf Hc1 Hc2 Hc3 Hsa Hsp. unfold validate_data.
  rewrite bind_run, (working_copy_run _ _ _ _ Hdf), dropna_working_frame by done.
  rewrite bind_run.
  rewrite (full_sample_run _ _ _ _ _ _ _ _ (working_frame trait d0) sa sp);
    [|apply lookup_snoc|done..].
  cbn [heap trace]. by rewrite <- app_assoc.
Qed.

(** X7. When the joined table lacks the [BBCH Rating] column but the full
    sample can be evaluated, the run ends in [KeyError] at line 94, after
    the full-sample figure and table have been written: they stay behind,
    and nothing else is written. *)
Theorem missing_bbch_keeps_full_sample _df out_dir trait tn tu tl w d0 sa sp :
  heap w !! _df = Some d0 →
  trait ∈ columns d0 →
  trait +:+ "_all" ∈ columns d0 →
  trait +:+ " (Phenology)" ∈ columns d0 →
  plot_prediction (cell_at trait <$> kept_rows trait d0)
    (cell_at (trait +:+ "_all") <$> kept_rows trait d0) tn tu tl = Ok sa →
  plot_prediction (cell_at trait <$> kept_rows trait d0)
    (cell_at (trait +:+ " (Phenology)") <$> kept_rows trait d0) tn tu tl = Ok sp →
  "BBCH Rating" ∉ columns d0 →
  (validate_data' _df out_dir trait tn tu tl w).2 = Err (KeyError "BBCH Rating") ∧
  trace (validate_data' _df out_dir trait tn tu tl w).1 =
    trace w ++ full_sample_events (working_frame trait d0) out_dir trait sa sp.
Proof.
  intros Hdf Hc1 Hc2 Hc3 Hsa Hsp Hb.
  rewrite (validate_data_after_full_sample _ _ _ _ _ _ _ d0 sa sp) by done.
  unfold stage_validation. rewrite bind_run.
  rewrite (label_macro_stages_run _ _ _ (working_frame trait d0)).
  - rewrite getitem_missing by done. done.
  - cbn [heap]. rewrite lookup_app_r by lia. by rewrite Nat.sub_diag.
Qed.

Lemma validate_data_events _df out_dir trait tn tu tl w w' d0 :
  heap w !! _df = Some d0 →
  validate_data' _df out_dir trait tn tu tl w = (w', Ok tt) →
  ∃ sa sp stats1 stats2 d2 d3 artifacts keys,
    keys = group_keys (cell_at "Macro-Stage" <$> kept_rows trait d0) ∧
    length keys = stage_count trait d0 ∧
    length stats1 = length keys ∧ length stats2 = length keys ∧
    bbch_confusion_matrix d2 out_dir = Ok (d3, artifacts) ∧
    trace w' = trace w
      ++ full_sample_events (working_frame trait d0) out_dir trait sa sp
      ++ stage_plots d2 trait (trait +:+ " (Phenology)") keys
      ++ [Savefig (joinpath out_dir
                     (file_stem trait +:+ "_scatterplot_pheno_phases.png"));
          StatsCsv (joinpath out_dir
                      (file_stem trait +:+ "_errors_pheno_phases.csv")) false stats1]
      ++ stage_plots d2 trait (trait +:+ "_all") keys
      ++ [Savefig (joinpath out_dir
                     (file_stem trait +:+ "_scatterplot_pheno_phases_all.png"));
          StatsCsv (joinpath out_dir
                      (file_stem trait +:+ "_errors_pheno_phases_all.csv")) false stats2]
      ++ [ConfusionMatrix d2 out_dir]
      ++ (Artifact <$> artifacts).
Proof.
  intros Hdf E.
  apply (validate_data_inv _ _ _ _ _ _ _ _ _ _ _ _ d0) in E
    as (_ & evs & Ht & _ & Hok); [|done].
  destruct (Hok eq_refl) as (d1 & evs1 & evs2 & [_ ->]%dropna_ok & Hfs & Hsv & ->).
  destruct Hfs as (sa & sp & _ & _ & _ & _ & _ & ->).
  destruct Hsv as (ratings & stages & d2 & ms & stats1 & stats2 & d3 & written &
                   _ & _ & Hd2 & Hms & _ & H1 & H2 & Hcm & ->).
  destruct (macro_stage_after_label _ _ _ _ Hd2 Hms) as [_ ->].
  exists sa, sp, stats1, stats2, d2, d3, written. eexists.
  split; [reflexivity|]. split; [apply group_keys_length|].
  split; [symmetry; by eapply Forall2_length|].
  split; [symmetry; by eapply Forall2_length|].
  split; [done|]. rewrite Ht. done.
Qed.

(** X8. A completed run has written exactly six files of its own, in this
    order: the full-sample figure and table, the per-stage figure and table
    of the constrained retrieval, those of the unconstrained retrieval;
    whatever the confusion matrix builder writes comes last. *)
Theorem validation_files_in_order _df out_dir trait tn tu tl w w' d0 :
  heap w !! _df = Some d0 →
  validate_data' _df out_dir trait tn tu tl w = (w', Ok tt) →
  ∃ evs d2 d3 artifacts,
    trace w' = trace w ++ evs ∧
    bbch_confusion_matrix d2 out_dir = Ok (d3, artifacts) ∧
    omap written_path evs = validation_files out_dir trait ++ artifacts.
Proof.
  intros Hdf E.
  destruct (validate_data_events _ _ _ _ _ _ _ _ _ Hdf E)
    as (sa & sp & stats1 & stats2 & d2 & d3 & artifacts & keys &
        _ & _ & _ & _ & Hcm & Ht).
  eexists _, d2, d3, artifacts. split; [exact Ht|]. split; [done|].
  apply omap_written_validation.
Qed.

(** X9. A completed run over [n] macro stages has asked for [2 + 2 n]
    metric computations; the table written with its index, the full-sample
    one, has two rows, and each table written without index, one per
    stratification by stage, has [n] rows. *)
Theorem metric_requests_and_table_sizes _df out_dir trait tn tu tl w w' d0 :
  heap w !! _df = Some d0 →
  validate_data' _df out_dir trait tn tu tl w = (w', Ok tt) →
  ∃ evs,
    trace w' = trace w ++ evs ∧
    length (filter (λ e, is_metric_request e = true) evs)
      = (2 + 2 * stage_count trait d0)%nat ∧
    ∀ path index table, StatsCsv path index table ∈ evs →
      length table = if index then 2%nat else stage_count trait d0.
Proof.
  intros Hdf E.
  destruct (validate_data_events _ _ _ _ _ _ _ _ _ Hdf E)
    as (sa & sp & stats1 & stats2 & d2 & d3 & artifacts & keys &
        _ & Hn & Hl1 & Hl2 & _ & Ht).
  eexists. split; [exact Ht|]. split.
  - rewrite !filter_app, !length_app, !metric_stage_plots, metric_artifacts.
    rewrite Hn. simpl. lia.
  - intros path index table Hin.
    assert (∀ d pc, StatsCsv path index table ∉ stage_plots d trait pc keys) as Hsp.
    { intros d pc (k & ? & _)%list_elem_of_fmap. discriminate. }
    repeat (apply elem_of_app in Hin as [Hin|Hin]);
      try (by apply Hsp in Hin);
      try (apply list_elem_of_fmap in Hin as (? & ? & _); discriminate);
      repeat (apply elem_of_cons in Hin as [Hin|Hin]; try discriminate);
      try (by apply not_elem_of_nil in Hin);
      injection Hin as -> -> ->; simpl; congruence.
Qed.

(** X10. Fewer than two macro stages end a run that got as far as line 100
    in an exception of the plotting library, before any per-stage metric is
    requested: with no stage at all [plt.subplots] rejects zero columns
    ([ValueError]), with a single stage the first [ax[idx]] indexes a bare
    Axes object ([TypeError]). The full-sample figure and table are the
    only files written. *)
Theorem few_stages_exception _df out_dir trait tn tu tl w d0 sa sp stages :
  heap w !! _df = Some d0 →
  Forall (λ c, c ∈ columns d0) (expected_columns trait) →
  plot_prediction (cell_at trait <$> kept_rows trait d0)
    (cell_at (trait +:+ "_all") <$> kept_rows trait d0) tn tu tl = Ok sa →
  plot_prediction (cell_at trait <$> kept_rows trait d0)
    (cell_at (trait +:+ " (Phenology)") <$> kept_rows trait d0) tn tu tl = Ok sp →
  traverse assign_macro_stages (cell_at "BBCH Rating" <$> kept_rows trait d0)
    = Ok stages →
  (stage_count trait d0 < 2)%nat →
  (∃ msg, (validate_data' _df out_dir trait tn tu tl w).2 =
            Err (match stage_count trait d0 with
                 | O => ValueError msg
                 | _ => TypeError msg
                 end)) ∧
  trace (validate_data' _df out_dir trait tn tu tl w).1 =
    trace w ++ full_sample_events (working_frame trait d0) out_dir trait sa sp.
Proof.
  intros Hdf Hcols Hsa Hsp Hst Hn.
  unfold expected_columns in Hcols.
  apply Forall_cons in Hcols as [Hc1 Hcols]. apply Forall_cons in Hcols as [Hc2 Hcols].
  apply Forall_cons in Hcols as [Hc3 Hcols]. apply Forall_cons in Hcols as [Hc4 Hcols].
  apply Forall_cons in Hcols as [Hc5 _].
  cut (∃ h msg, validate_data' _df out_dir trait tn tu tl w =
            (World h (trace w ++ full_sample_events (working_frame trait d0)
                                   out_dir trait sa sp),
             Err (match stage_count trait d0 with
                  | O => ValueError msg
                  | _ => TypeError msg
                  end))).
  { intros (h & msg & ->). split; [by exists msg|done]. }
  rewrite (validate_data_after_full_sample _ _ _ _ _ _ _ d0 sa sp) by done.
  set (d1 := working_frame trait d0).
  set (w1 := World _ _).
  assert (heap w1 !! length (heap w) = Some d1) as Hd1.
  { unfold w1. cbn [heap]. rewrite lookup_app_r by lia. by rewrite Nat.sub_diag. }
  change (kept_rows trait d0) with (rows d1) in Hst.
  assert (length stages = length (rows d1)) as Hlen.
  { apply traverse_ok, Forall2_length in Hst. by rewrite length_fmap in Hst. }
  unfold stage_validation. rewrite bind_run.
  rewrite (label_macro_stages_run _ _ _ d1 Hd1).
  rewrite getitem_in by done. cbn [mbind result_bind].
  rewrite Hst. cbn [mbind result_bind].
  rewrite setitem_len by done.
  set (d2 := Frame _ _).
  assert (cell_at "Macro-Stage" <$> rows d2 = cell_at "Macro-Stage" <$> kept_rows trait d0)
    as Hms by (by apply fmap_cell_at_zip_insert_ne).
  assert (∀ c, c ∈ columns d0 → c ∈ columns d2) as Hin2
    by (intros c Hc; by apply with_column_mono).
  mrun. rewrite list_lookup_insert_eq by (by eapply lookup_lt_Some).
  mrun. rewrite (getitem_in d2 "Macro-Stage") by auto. mrun.
  unfold groupby at 1. rewrite (getitem_in d2 "Macro-Stage") by auto.
  cbn [mbind result_bind]. mrun.
  rewrite Hms. fold (stage_count trait d0).
  unfold by_stage at 1. mrun.
  destruct (stage_count trait d0) as [|[|n]] eqn:En; [by do 2 eexists| |lia].
  cbn [plt_subplots]. mrun.
  rewrite list_lookup_insert_eq by (by eapply lookup_lt_Some). mrun.
  unfold groupby. rewrite (getitem_in d2 "Macro-Stage") by auto.
  cbn [mbind result_bind]. mrun. rewrite Hms.
  pose proof (group_keys_length (cell_at "Macro-Stage" <$> kept_rows trait d0)) as Hk.
  fold (stage_count trait d0) in Hk. rewrite En in Hk.
  destruct (group_keys _) as [|k [|]]; [done| |done].
  cbn [fmap list_fmap stage_loop]. mrun.
  rewrite !getitem_in by (cbn [select_rows columns]; auto).
  mrun. by do 2 eexists.
Qed.

End ValidationRuns.

(** ** One trait of the entry point *)

Lemma trait_tables_ok lai_all ccc_all inv trait insitu inv' :
  trait_tables lai_all ccc_all inv trait = Ok (insitu, inv') →
  trait ∈ ["lai"; "ccc"; "cab"] ∧
  (trait ≠ "cab" → inv' = inv) ∧
  (trait = "cab" → inversion_cab inv = Ok inv') ∧
  ∃ cfg, trait_settings trait = Ok cfg.
Proof.
  unfold trait_tables, trait_settings. intros H.
  destruct (decide (trait = "cab")) as [->|Hcab].
  - ok_inv H. injection H as <- <-. split; [set_solver|]. split; [done|].
    split; [done|]. by eexists.
  - destruct (decide (trait = "lai")) as [->|Hlai].
    + injection H as <- <-. split; [set_solver|]. split; [done|]. split; [done|].
      by eexists.
    + destruct (decide (trait = "ccc")) as [->|Hccc]; [|done].
      injection H as <- <-. split; [set_solver|]. split; [done|]. split; [done|].
      by eexists.
Qed.

Section TraitRuns.

Variable plot_prediction :
  list cell → list cell → string → string → TraitLimits → result row.
Variable assign_macro_stages : cell → result cell.
Variable bbch_confusion_matrix :
  DataFrame → string → result (DataFrame * list string).
Variable join_with_insitu :
  DataFrame → DataFrame → DataFrame → list string → result DataFrame.

Abbreviation run_trait :=
  (process_trait plot_prediction assign_macro_stages bbch_confusion_matrix
     join_with_insitu).

(** X11. A trait without settings gets its output directory created and
    then fails with [KeyError] at the lookup of its settings: nothing is
    joined, written or validated, and no table is touched. *)
Theorem unknown_trait_fails_after_mkdir res_dir lai_all ccc_all bbch inv_ref trait w inv :
  heap w !! inv_ref = Some inv →
  trait ∉ ["lai"; "ccc"; "cab"] →
  run_trait res_dir lai_all ccc_all bbch inv_ref trait w =
  (World (heap w)
         (trace w ++ [Mkdir (joinpath res_dir ("validation_" +:+ trait))]),
   Err (KeyError trait)).
Proof.
  intros Hinv Hnot. unfold process_trait. mrun. rewrite Hinv. mrun.
  unfold trait_tables.
  rewrite !decide_False by (intros ->; apply Hnot; set_solver).
  done.
Qed.

(** The run of one trait once its tables are built and joined. *)
Lemma process_trait_run res_dir lai_all ccc_all bbch inv_ref trait w inv
    insitu inv' joined :
  heap w !! inv_ref = Some inv →
  trait_tables lai_all ccc_all inv trait = Ok (insitu, inv') →
  join_with_insitu insitu bbch inv' [trait] = Ok joined →
  ∃ cfg,
    trait_settings trait = Ok cfg ∧
    run_trait res_dir lai_all ccc_all bbch inv_ref trait w =
    validate_data plot_prediction assign_macro_stages bbch_confusion_matrix
      (length (heap w)) (joinpath res_dir ("validation_" +:+ trait)) trait
      (trait_name cfg) (trait_unit cfg) (trait_limits cfg)
      (World (<[inv_ref:=inv']> (heap w) ++ [joined])
             (trace w
              ++ [Mkdir (joinpath res_dir ("validation_" +:+ trait));
                  FrameCsv (joinpath (joinpath res_dir ("validation_" +:+ trait))
                              ("inv_res_joined_with_insitu_" +:+ trait +:+ ".csv"))
                    joined])).
Proof.
  intros Hinv Ht Hj.
  destruct (trait_tables_ok _ _ _ _ _ _ Ht) as (_ & _ & _ & cfg & Hcfg).
  exists cfg. split; [done|].
  unfold process_trait. mrun. rewrite Hinv. mrun. rewrite Ht. mrun.
  rewrite Hj. mrun. rewrite Hcfg. mrun.
  rewrite length_insert, <- app_assoc. done.
Qed.

(** X12. Unlike [validate_data], the body of the trait loop changes a table
    of its caller: once the tables of [cab] are built, the inversion
    results carry their [cab] columns for the rest of the run, whatever
    happens afterwards; for [lai] and [ccc] they stay as they were. No
    other table that existed before is changed. *)
Theorem inversion_table_extended_in_place res_dir lai_all ccc_all bbch inv_ref
    trait w inv insitu inv' :
  heap w !! inv_ref = Some inv →
  trait_tables lai_all ccc_all inv trait = Ok (insitu, inv') →
  heap (run_trait res_dir lai_all ccc_all bbch inv_ref trait w).1 !! inv_ref
    = Some inv' ∧
  (∀ ref d, ref ≠ inv_ref → heap w !! ref = Some d →
     heap (run_trait res_dir lai_all ccc_all bbch inv_ref trait w).1 !! ref = Some d) ∧
  (trait ≠ "cab" → inv' = inv) ∧
  (trait = "cab" → inversion_cab inv = Ok inv').
Proof.
  intros Hinv Ht.
  destruct (trait_tables_ok _ _ _ _ _ _ Ht) as (_ & Hother & Hcab & _).
  assert (inv_ref < length (heap w))%nat as Hlt by (by eapply lookup_lt_Some).
  cut (∃ hs, heap (run_trait res_dir lai_all ccc_all bbch inv_ref trait w).1
             = <[inv_ref:=inv']> (heap w) ++ hs).
  { intros [hs ->]. split; [|split; [|done]].
    - rewrite lookup_app_l by (by rewrite length_insert).
      by apply list_lookup_insert_eq.
    - intros ref d Hne Hd.
      rewrite lookup_app_l by (rewrite length_insert; by eapply lookup_lt_Some).
      by rewrite list_lookup_insert_ne. }
  destruct (join_with_insitu insitu bbch inv' [trait]) as [joined|e] eqn:Hj.
  - destruct (process_trait_run res_dir _ _ _ _ _ _ _ _ _ _ Hinv Ht Hj)
      as (cfg & _ & ->).
    destruct (validate_data _ _ _ _ _ _ _ _ _ _) as [w' r] eqn:E.
    apply (validate_data_inv _ _ _ _ _ _ _ _ _ _ _ _ joined) in E as ([hs Hh] & _).
    + exists ([joined] ++ hs). cbn [fst]. rewrite Hh. cbn [heap].
      by rewrite <- app_assoc.
    + cbn [heap]. rewrite <- (length_insert (heap w) inv_ref inv').
      apply lookup_snoc.
  - exists []. unfold process_trait. mrun. rewrite Hinv. mrun. rewrite Ht. mrun.
    rewrite Hj. cbn [fst heap]. by rewrite app_nil_r.
Qed.

(** X13. The joined table is saved before any validation starts: whenever
    the join succeeds, the output directory has been created and the
    joined table written to it, however the validation ends. *)
Theorem joined_table_saved_first res_dir lai_all ccc_all bbch inv_ref trait w inv
    insitu inv' joined :
  heap w !! inv_ref = Some inv →
  trait_tables lai_all ccc_all inv trait = Ok (insitu, inv') →
  join_with_insitu insitu bbch inv' [trait] = Ok joined →
  ∃ rest,
    trace (run_trait res_dir lai_all ccc_all bbch inv_ref trait w).1 =
    trace w
    ++ [Mkdir (joinpath res_dir ("validation_" +:+ trait));
        FrameCsv (joinpath (joinpath res_dir ("validation_" +:+ trait))
                    ("inv_res_joined_with_insitu_" +:+ trait +:+ ".csv")) joined]
    ++ rest.
Proof.
  intros Hinv Ht Hj.
  destruct (process_trait_run res_dir _ _ _ _ _ _ _ _ _ _ Hinv Ht Hj)
    as (cfg & _ & ->).
  destruct (validate_data _ _ _ _ _ _ _ _ _ _) as [w' r] eqn:E.
  apply (validate_data_inv _ _ _ _ _ _ _ _ _ _ _ _ joined) in E
    as (_ & evs & Ht' & _).
  - exists evs. cbn [fst]. rewrite Ht'. cbn [trace]. by rewrite <- app_assoc.
  - cbn [heap]. rewrite <- (length_insert (heap w) inv_ref inv').
    apply lookup_snoc.
Qed.

End TraitRuns.

(** ** The in-situ table of leaf chlorophyll content *)

(** A label is none of finitely many given ones. *)
Ltac not_in_list :=
  let H := fresh in
  intros H; repeat (apply elem_of_cons in H as [H|H]; [discriminate|]);
  by apply not_elem_of_nil in H.

Lemma length_append (a b : string) :
  String.length (a +:+ b) = (String.length a + String.length b)%nat.
Proof. induction a as [|x a IH]; [done|]. rewrite append_cons. simpl. by rewrite IH. Qed.

(** Two strings with suffixes of the same length are equal only if the
    suffixes are. *)
Lemma append_eq_suffix (a b s t : string) :
  String.length s = String.length t → a +:+ s = b +:+ t → a = b ∧ s = t.
Proof.
  intros Hlen. revert b. induction a as [|x a IH]; intros [|y b] H.
  - change (s = t) in H. done.
  - apply (f_equal String.length) in H. rewrite !length_append in H.
    simpl in H. lia.
  - apply (f_equal String.length) in H. rewrite !length_append in H.
    simpl in H. lia.
  - rewrite !append_cons in H. injection H as -> H.
    destruct (IH _ H) as [-> ->]. done.
Qed.

Lemma rename_overlap_cases on other suffix c :
  (rename_overlap on other suffix c = c ∧ (c ∈ on ∨ c ∉ other)) ∨
  (rename_overlap on other suffix c = c +:+ suffix ∧ (c ∉ on) ∧ c ∈ other).
Proof. unfold rename_overlap. repeat case_decide; auto. Qed.

(** A label with suffix [_x] in the merged table stems from a column of
    that name, or from a column shared by both tables. *)
Lemma merged_suffixed_x on lcols rcols c :
  c +:+ "_x" ∈ merged_columns on lcols rcols →
  c +:+ "_x" ∈ lcols ∨ c +:+ "_x" ∈ rcols ∨ (c ∈ lcols ∧ c ∈ rcols ∧ c ∉ on).
Proof.
  unfold merged_columns. intros [Hin|Hin]%elem_of_app.
  - apply list_elem_of_fmap in Hin as (c' & Heq & Hc').
    destruct (rename_overlap_cases on rcols "_x" c') as [[Hr _]|(Hr & Hon & Hoth)];
      rewrite Hr in Heq.
    + left. by rewrite Heq.
    + apply append_eq_suffix in Heq as [-> _]; [|done]. auto.
  - apply list_elem_of_fmap in Hin as (c' & Heq & Hc').
    apply list_elem_of_filter in Hc' as [Hon Hc'].
    destruct (rename_overlap_cases on lcols "_y" c') as [[Hr _]|(Hr & _ & Hoth)];
      rewrite Hr in Heq.
    + right. left. by rewrite Heq.
    + by apply append_eq_suffix in Heq as [_ ?].
Qed.

(** A label that does not end in a suffix of the merge is in the merged
    table when it is a key, or a column of exactly one table. *)
Lemma merged_plain on lcols rcols c :
  (∀ c', c ≠ c' +:+ "_x") → (∀ c', c ≠ c' +:+ "_y") →
  c ∈ merged_columns on lcols rcols →
  (c ∈ on ∧ c ∈ lcols) ∨ (c ∈ lcols ∧ c ∉ rcols) ∨ (c ∈ rcols ∧ c ∉ lcols).
Proof.
  intros Hx Hy. unfold merged_columns. intros [Hin|Hin]%elem_of_app.
  - apply list_elem_of_fmap in Hin as (c' & Heq & Hc').
    destruct (rename_overlap_cases on rcols "_x" c') as [[Hr Hc]|(Hr & _)];
      rewrite Hr in Heq; [|by apply Hx in Heq].
    subst c'. destruct Hc; auto.
  - apply list_elem_of_fmap in Hin as (c' & Heq & Hc').
    apply list_elem_of_filter in Hc' as [Hon Hc'].
    destruct (rename_overlap_cases on lcols "_y" c') as [[Hr Hc]|(Hr & _)];
      rewrite Hr in Heq; [|by apply Hy in Heq].
    subst c'. destruct Hc; [done|auto].
Qed.

Lemma drop_columns_ok cs d d' :
  drop_columns cs d = Ok d' →
  Forall (λ c, c ∈ columns d) cs ∧
  columns d' = filter (λ c, c ∉ cs) (columns d) ∧
  rows d' = (λ r, foldr delete r cs) <$> rows d.
Proof.
  unfold drop_columns. destruct (filter _ cs) as [|c l] eqn:E; [|done].
  intros [= <-]. split; [|done].
  apply Forall_forall. intros c Hc.
  destruct (decide (c ∈ columns d)) as [|Hn]; [done|].
  assert (c ∈ filter (λ c, c ∉ columns d) cs) as Hin by (by apply list_elem_of_filter).
  rewrite E in Hin. by apply not_elem_of_nil in Hin.
Qed.

Lemma setitem_getitem d c c' v d' :
  getitem d c' = Ok v → setitem d c v = Ok d' →
  columns d' = with_column c (columns d) ∧
  rows d' = (λ r, <[c:=cell_at c' r]> r) <$> rows d.
Proof.
  intros [_ ->]%getitem_ok (_ & Hc & Hr)%setitem_ok. split; [done|].
  by rewrite Hr, zip_with_fmap_same.
Qed.

(** The shape of the in-situ table of [cab]: every row of the merge, with
    [date] and [lai] taken from the left table, extended by [cab]. *)
Lemma insitu_cab_shape lai_all ccc_all d :
  insitu_cab lai_all ccc_all = Ok d →
  ∃ merged,
    pd_merge lai_all ccc_all insitu_keys = Ok merged ∧
    Forall (λ c, c ∈ columns merged) ["date_x"; "date_y"; "lai_x"; "lai_y"; "ccc"] ∧
    columns d = insitu_columns (columns merged) ∧
    Forall2 (λ m r, ratio_row "ccc" "lai" "cab" (insitu_row m) r)
      (rows merged) (rows d).
Proof.
  unfold insitu_cab. intros H.
  apply result_bind_ok in H as (merged & Hm & H).
  apply result_bind_ok in H as (v1 & Hv1 & H).
  apply result_bind_ok in H as (d1 & Hd1 & H).
  apply result_bind_ok in H as (d2 & Hd2 & H).
  apply result_bind_ok in H as (v2 & Hv2 & H).
  apply result_bind_ok in H as (d3 & Hd3 & H).
  apply result_bind_ok in H as (d4 & Hd4 & H).
  apply result_bind_ok in H as (vc & Hvc & H).
  apply result_bind_ok in H as (vl & Hvl & H).
  apply result_bind_ok in H as (q & Hq & H).
  apply result_bind_ok in H as (cab & Hcab & H).
  destruct (derive_ratio_rows _ _ _ _ _ _ _ _ _ Hvc Hvl Hq Hcab H) as [Hcols Hrows].
  destruct (setitem_getitem _ _ _ _ _ Hv1 Hd1) as [Hc1 Hr1].
  destruct (drop_columns_ok _ _ _ Hd2) as (Hin2 & Hc2 & Hr2).
  destruct (setitem_getitem _ _ _ _ _ Hv2 Hd3) as [Hc3 Hr3].
  destruct (drop_columns_ok _ _ _ Hd4) as (Hin4 & Hc4 & Hr4).
  exists merged. split; [done|].
  assert (∀ c, c ∉ ["date"; "lai"] → c ∈ columns d4 → c ∈ columns merged) as Hback.
  { intros c Hne. rewrite Hc4, Hc3, Hc2, Hc1.
    intros [_ Hc]%list_elem_of_filter.
    apply with_column_inv in Hc as [->|Hc]; [set_solver|].
    apply list_elem_of_filter in Hc as [_ Hc].
    apply with_column_inv in Hc as [->|Hc]; [set_solver|done]. }
  split.
  - apply getitem_ok in Hv1 as [Hx _]. apply getitem_ok in Hv2 as [Hlx _].
    apply getitem_ok in Hvc as [Hccc _].
    apply Forall_cons in Hin2 as [_ [Hdy _]%Forall_cons].
    apply Forall_cons in Hin4 as [_ [Hly _]%Forall_cons].
    rewrite Hc1 in Hdy. apply with_column_inv in Hdy as [?|Hdy]; [done|].
    rewrite Hc2, Hc1 in Hlx. apply list_elem_of_filter in Hlx as [_ Hlx].
    apply with_column_inv in Hlx as [?|Hlx]; [done|].
    rewrite Hc3, Hc2, Hc1 in Hly. apply with_column_inv in Hly as [?|Hly]; [done|].
    apply list_elem_of_filter in Hly as [_ Hly].
    apply with_column_inv in Hly as [?|Hly]; [done|].
    apply Hback in Hccc; [|not_in_list].
    by repeat constructor.
  - split; [by rewrite Hcols, Hc4, Hc3, Hc2, Hc1|].
    rewrite Hr4, Hr3, Hr2, Hr1 in Hrows. rewrite <- !list_fmap_compose in Hrows.
    rewrite Forall2_fmap_l in Hrows.
    eapply Forall2_impl; [exact Hrows|]. intros m r Hr. exact Hr.
Qed.

Lemma ccc_not_suffixed suffix c :
  String.length suffix = 2%nat → suffix ≠ "cc" → "ccc" ≠ c +:+ suffix.
Proof.
  intros Hlen Hne Heq. change "ccc" with ("c" +:+ "cc") in Heq.
  symmetry in Heq. by apply append_eq_suffix in Heq as [_ ?].
Qed.

(** The labels the script reads after the merge are labels of the merged
    table. *)
Lemma insitu_cab_merged_labels lai_all ccc_all d :
  insitu_cab lai_all ccc_all = Ok d →
  Forall (λ k, k ∈ columns lai_all ∧ k ∈ columns ccc_all) insitu_keys ∧
  Forall (λ c, c ∈ merged_columns insitu_keys (columns lai_all) (columns ccc_all))
    ["date_x"; "lai_x"; "ccc"].
Proof.
  intros (merged & Hm & Hin & _)%insitu_cab_shape.
  apply pd_merge_ok in Hm as (Hkeys & Hcols & _). rewrite Hcols in Hin.
  apply Forall_cons in Hin as [Hdx Hin]. apply Forall_cons in Hin as [_ Hin].
  apply Forall_cons in Hin as [Hlx Hin]. apply Forall_cons in Hin as [_ Hin].
  apply Forall_cons in Hin as [Hccc _].
  split; [done|]. by repeat constructor.
Qed.

Lemma ccc_in_one on lcols rcols :
  "ccc" ∉ on → "ccc" ∈ merged_columns on lcols rcols →
  ("ccc" ∈ lcols ∧ "ccc" ∉ rcols) ∨ ("ccc" ∈ rcols ∧ "ccc" ∉ lcols).
Proof.
  intros Hon Hccc.
  apply merged_plain in Hccc as [[? _]|[?|?]]; [done|auto..| |];
    intros c; by apply ccc_not_suffixed.
Qed.

(** X14. The in-situ table of [cab] can only be built from tables that
    both carry the four merge keys, and of which exactly one carries
    [ccc]; unless a table already has a label [date_x] or [lai_x], both
    tables must also carry [date] and [lai], since the script reads the
    suffixed columns the merge makes of shared labels. *)
Theorem insitu_cab_requires lai_all ccc_all d :
  insitu_cab lai_all ccc_all = Ok d →
  Forall (λ k, k ∈ columns lai_all ∧ k ∈ columns ccc_all) insitu_keys ∧
  (("ccc" ∈ columns lai_all ∧ "ccc" ∉ columns ccc_all) ∨
   ("ccc" ∈ columns ccc_all ∧ "ccc" ∉ columns lai_all)) ∧
  (no_suffixed_labels lai_all → no_suffixed_labels ccc_all →
   Forall (λ c, c ∈ columns lai_all ∧ c ∈ columns ccc_all) ["date"; "lai"]).
Proof.
  intros (Hkeys & Hin)%insitu_cab_merged_labels.
  apply Forall_cons in Hin as [Hdx Hin]. apply Forall_cons in Hin as [Hlx Hin].
  apply Forall_cons in Hin as [Hccc _].
  split; [done|]. split.
  - apply ccc_in_one in Hccc; [done|not_in_list].
  - intros [Hl1 Hl2] [Hr1 Hr2].
    apply (merged_suffixed_x _ _ _ "date") in Hdx as [?|[?|(? & ? & _)]]; [done..|].
    apply (merged_suffixed_x _ _ _ "lai") in Hlx as [?|[?|(? & ? & _)]]; [done..|].
    by repeat constructor.
Qed.

Lemma list_to_map_first {B} (f : B → string) (g : B → cell) (l : list B)
    (rest : list (string * cell)) b :
  b ∈ l → (∀ b', b' ∈ l → f b' = f b → g b' = g b) →
  (list_to_map (((λ x, (f x, g x)) <$> l) ++ rest) : row) !! f b = Some (g b).
Proof.
  induction l as [|x l IH]; intros Hin Hu; [by apply not_elem_of_nil in Hin|].
  rewrite fmap_cons, <- app_comm_cons, list_to_map_cons.
  destruct (decide (f x = f b)) as [Heq|Hne].
  - rewrite Heq, lookup_insert_eq. f_equal. apply Hu; [apply list_elem_of_here|done].
  - rewrite lookup_insert_ne by done. apply IH.
    + apply elem_of_cons in Hin as [->|?]; done.
    + intros b' Hb'. apply Hu. by apply list_elem_of_further.
Qed.

Lemma list_to_map_skip {B} (f : B → string) (g : B → cell) (l : list B)
    (rest : list (string * cell)) k :
  (∀ b, b ∈ l → f b ≠ k) →
  (list_to_map (((λ x, (f x, g x)) <$> l) ++ rest) : row) !! k
  = (list_to_map rest : row) !! k.
Proof.
  induction l as [|x l IH]; intros Hk; [done|].
  rewrite fmap_cons, <- app_comm_cons, list_to_map_cons.
  rewrite lookup_insert_ne by (apply Hk, list_elem_of_here).
  apply IH. intros b Hb. apply Hk. by apply list_elem_of_further.
Qed.

(** A column shared by both tables, and no key: its left value is found
    under the label with suffix [_x] (when no column has that label
    already). *)
Lemma merge_rows_shared on lcols rcols l r c :
  c ∈ lcols → c ∈ rcols → c ∉ on → c +:+ "_x" ∉ lcols →
  cell_at (c +:+ "_x") (merge_rows on lcols rcols l r) = cell_at c l.
Proof.
  intros Hl Hr Hon Hx. unfold cell_at at 1, merge_rows.
  assert (rename_overlap on rcols "_x" c = c +:+ "_x") as Hre.
  { unfold rename_overlap. by rewrite decide_False, decide_True. }
  rewrite <- Hre.
  rewrite (list_to_map_first (rename_overlap on rcols "_x") (λ c, cell_at c l));
    [done..|].
  intros c' Hc' Heq. rewrite Hre in Heq.
  destruct (rename_overlap_cases on rcols "_x" c') as [[Hr' _]|[Hr' _]];
    rewrite Hr' in Heq.
  - by subst c'.
  - by apply append_eq_suffix in Heq as [-> _].
Qed.

(** A key: its value is that of the left row. *)
Lemma merge_rows_key on lcols rcols l r k :
  k ∈ on → k ∈ lcols → (∀ c, k ≠ c +:+ "_x") →
  cell_at k (merge_rows on lcols rcols l r) = cell_at k l.
Proof.
  intros Hon Hl Hx. unfold cell_at at 1, merge_rows.
  assert (rename_overlap on rcols "_x" k = k) as Hre.
  { unfold rename_overlap. by rewrite decide_True. }
  rewrite <- Hre at 1.
  rewrite (list_to_map_first (rename_overlap on rcols "_x") (λ c, cell_at c l));
    [done..|].
  intros c' Hc' Heq. rewrite Hre in Heq.
  destruct (rename_overlap_cases on rcols "_x" c') as [[Hr' _]|[Hr' _]];
    rewrite Hr' in Heq.
  - by subst c'.
  - symmetry in Heq. by apply Hx in Heq.
Qed.

(** A column of the right table only, and no key: its value is found
    under its own label. *)
Lemma merge_rows_right_only on lcols rcols l r c :
  c ∈ rcols → c ∉ lcols → c ∉ on →
  (∀ c', c ≠ c' +:+ "_x") → (∀ c', c ≠ c' +:+ "_y") →
  cell_at c (merge_rows on lcols rcols l r) = cell_at c r.
Proof.
  intros Hr Hl Hon Hx Hy. unfold cell_at at 1, merge_rows.
  rewrite list_to_map_skip.
  - assert (rename_overlap on lcols "_y" c = c) as Hre.
    { unfold rename_overlap. by rewrite !decide_False. }
    rewrite <- Hre at 1.
    rewrite <- (app_nil_r (_ <$> filter _ rcols)).
    rewrite (list_to_map_first (rename_overlap on lcols "_y") (λ c, cell_at c r));
      [done|by apply list_elem_of_filter|].
    intros c' Hc' Heq. rewrite Hre in Heq.
    destruct (rename_overlap_cases on lcols "_y" c') as [[Hr' _]|[Hr' _]];
      rewrite Hr' in Heq.
    + by subst c'.
    + symmetry in Heq. by apply Hy in Heq.
  - intros c' Hc' Heq.
    destruct (rename_overlap_cases on rcols "_x" c') as [[Hr' _]|[Hr' _]];
      rewrite Hr' in Heq.
    + by subst c'.
    + symmetry in Heq. by apply Hx in Heq.
Qed.

Ltac map_lookup :=
  repeat first
    [ rewrite lookup_insert_eq
    | rewrite lookup_delete_eq
    | rewrite lookup_insert_ne by done
    | rewrite lookup_delete_ne by done ].

Lemma insitu_row_spec (m : row) :
  cell_at "date" (insitu_row m) = cell_at "date_x" m ∧
  cell_at "lai" (insitu_row m) = cell_at "lai_x" m ∧
  Forall (λ c, insitu_row m !! c = None) ["date_x"; "date_y"; "lai_x"; "lai_y"] ∧
  ∀ c, c ∉ ["date"; "lai"; "date_x"; "date_y"; "lai_x"; "lai_y"] →
       insitu_row m !! c = m !! c.
Proof.
  unfold insitu_row, cell_at. cbn [foldr]. repeat split.
  - by map_lookup.
  - by map_lookup.
  - repeat constructor; by map_lookup.
  - intros c Hc.
    assert (c ≠ "date" ∧ c ≠ "lai" ∧ c ≠ "date_x" ∧ c ≠ "date_y" ∧
            c ≠ "lai_x" ∧ c ≠ "lai_y") as (? & ? & ? & ? & ? & ?).
    { repeat split; intros ->; apply Hc; in_list. }
    by map_lookup.
Qed.

Lemma key_not_suffixed k c : k ∈ insitu_keys → k ≠ c +:+ "_x".
Proof.
  intros Hk Heq. unfold insitu_keys in Hk.
  repeat (apply elem_of_cons in Hk as [->|Hk]);
    [| | | |by apply not_elem_of_nil in Hk].
  - change "point_id" with ("point_" +:+ "id") in Heq.
    symmetry in Heq. by apply append_eq_suffix in Heq as [_ ?].
  - change "gdd_cumsum" with ("gdd_cums" +:+ "um") in Heq.
    symmetry in Heq. by apply append_eq_suffix in Heq as [_ ?].
  - change "parcel" with ("parc" +:+ "el") in Heq.
    symmetry in Heq. by apply append_eq_suffix in Heq as [_ ?].
  - change "location" with ("locati" +:+ "on") in Heq.
    symmetry in Heq. by apply append_eq_suffix in Heq as [_ ?].
Qed.

(** X15. The merge of line 245 does not compare dates: whenever a LAI
    record and a CCC record agree on the four merge keys, the in-situ
    table of [cab] has a row made of the two, whatever their dates. The
    row carries the keys, the date and the LAI value of the LAI record and
    the CCC value of the CCC record; the date and the LAI value of the CCC
    record are dropped. *)
Theorem insitu_cab_pairs_whatever_the_dates lai_all ccc_all d l r :
  insitu_cab lai_all ccc_all = Ok d →
  no_suffixed_labels lai_all → no_suffixed_labels ccc_all →
  "ccc" ∉ columns lai_all →
  l ∈ rows lai_all → r ∈ rows ccc_all →
  key_of insitu_keys r = key_of insitu_keys l →
  ∃ m, m ∈ rows d ∧
       (∀ k, k ∈ insitu_keys → cell_at k m = cell_at k l) ∧
       cell_at "date" m = cell_at "date" l ∧
       cell_at "lai" m = cell_at "lai" l ∧
       cell_at "ccc" m = cell_at "ccc" r ∧
       Forall (λ c, m !! c = None) ["date_x"; "date_y"; "lai_x"; "lai_y"].
Proof.
  intros Hd Hnl Hnr Hccc Hl Hr Hkey.
  destruct (insitu_cab_merged_labels _ _ _ Hd) as (Hkeys & Hin).
  apply Forall_cons in Hin as [Hmdx Hin]. apply Forall_cons in Hin as [Hmlx Hin].
  apply Forall_cons in Hin as [Hmccc _].
  apply ccc_in_one in Hmccc as [[? _]|[Hcr _]]; [done| |not_in_list].
  destruct Hnl as [Hdx Hlx]. destruct Hnr as [Hrdx Hrlx].
  apply (merged_suffixed_x _ _ _ "date") in Hmdx
    as [?|[?|(Hdl & Hdr & _)]]; [done..|].
  apply (merged_suffixed_x _ _ _ "lai") in Hmlx
    as [?|[?|(Hll & Hlr & _)]]; [done..|].
  apply insitu_cab_shape in Hd as (merged & Hm & _ & _ & Hrows).
  apply pd_merge_ok in Hm as (_ & _ & Hmr).
  set (m0 := merge_rows insitu_keys (columns lai_all) (columns ccc_all) l r).
  assert (m0 ∈ rows merged) as Hm0.
  { rewrite Hmr. apply list_elem_of_bind. exists l. split; [|done].
    apply list_elem_of_fmap. exists r. split; [done|].
    by apply list_elem_of_filter. }
  apply list_elem_of_lookup in Hm0 as [i Hi].
  destruct (Forall2_lookup_l _ _ _ _ _ Hrows Hi) as (m & Hmi & x & y & _ & _ & ->).
  destruct (insitu_row_spec m0) as (Hdate & Hlai & Hgone & Hother).
  exists (<["cab":=CNum (cab_value x y)]> (insitu_row m0)).
  split; [by eapply list_elem_of_lookup_2|].
  split; [|split; [|split; [|split]]].
  - intros k Hk. rewrite cell_at_insert_ne by (intros <-; revert Hk; not_in_list).
    unfold cell_at at 1. rewrite Hother.
    + apply merge_rows_key; [done| |intros c; by apply key_not_suffixed].
      rewrite Forall_forall in Hkeys. by apply Hkeys.
    + intros Hin. unfold insitu_keys in Hk.
      repeat (apply elem_of_cons in Hk as [->|Hk]);
        [revert Hin; not_in_list..|by apply not_elem_of_nil in Hk].
  - rewrite cell_at_insert_ne, Hdate by done.
    by apply (merge_rows_shared _ _ _ _ _ "date"); [| |not_in_list|].
  - rewrite cell_at_insert_ne, Hlai by done.
    by apply (merge_rows_shared _ _ _ _ _ "lai"); [| |not_in_list|].
  - rewrite cell_at_insert_ne by done. unfold cell_at at 1. rewrite Hother by not_in_list.
    apply merge_rows_right_only; [done|done|not_in_list| |];
      intros c; by apply ccc_not_suffixed.
  - apply Forall_forall. intros c Hc.
    rewrite lookup_insert_ne by (intros <-; revert Hc; not_in_list).
    rewrite Forall_forall in Hgone. by apply Hgone.
Qed.

(** ** Binary64 arithmetic: where NaN comes from *)

Section Binary64.

Local Open Scope Z_scope.

Lemma shr_1_nonneg (mrs : shr_record) :
  (0 ≤ shr_m mrs)%Z → (0 ≤ shr_m (shr_1 mrs))%Z.
Proof.
  destruct mrs as [m r s]. simpl. intros Hm.
  destruct m as [|[p|p|]|p]; simpl; lia.
Qed.

Lemma iter_pos_invariant {A} (P : A → Prop) (f : A → A) p x :
  (∀ y, P y → P (f y)) → P x → P (SpecFloat.iter_pos f p x).
Proof.
  intros Hf. revert x. induction p as [p IH|p IH|]; simpl; intros x Hx; auto.
Qed.

Lemma shr_fexp_nonneg (prec emax m e : Z) l :
  (0 ≤ m)%Z → (0 ≤ shr_m (shr_fexp prec emax m e l).1)%Z.
Proof.
  intros Hm. unfold shr_fexp, shr.
  assert (0 ≤ shr_m (shr_record_of_loc m l)) as H0
    by (by destruct l as [|[]]).
  destruct (fexp prec emax (Zdigits2 m + e) - e); simpl; try done.
  apply (iter_pos_invariant (λ mrs, 0 ≤ shr_m mrs)); [apply shr_1_nonneg|done].
Qed.

Lemma round_nearest_even_nonneg (m : Z) l :
  (0 ≤ m)%Z → (0 ≤ round_nearest_even m l)%Z.
Proof.
  intros Hm. unfold round_nearest_even.
  destruct l as [|[]]; try done; [destruct (Z.even m)|]; lia.
Qed.

(** Rounding a non-negative mantissa gives a zero, a finite number or an
    infinity. *)
Lemma binary_round_aux_not_nan (prec emax : Z) sx (mx ex : Z) lx :
  (0 ≤ mx)%Z → is_nan (binary_round_aux prec emax sx mx ex lx) = false.
Proof.
  intros Hm. unfold binary_round_aux.
  pose proof (shr_fexp_nonneg prec emax mx ex lx Hm) as H1.
  destruct (shr_fexp prec emax mx ex lx) as [mrs' e']. simpl in H1.
  pose proof (shr_fexp_nonneg prec emax
                (round_nearest_even (shr_m mrs') (loc_of_shr_record mrs')) e'
                loc_Exact (round_nearest_even_nonneg _ _ H1)) as H2.
  destruct (shr_fexp prec emax _ e' loc_Exact) as [mrs'' e'']. simpl in H2.
  destruct (shr_m mrs'') as [|p|p]; [done| |lia].
  by destruct (e'' <=? emax - prec).
Qed.

Lemma SFdiv_core_nonneg (prec emax : Z) m1 (e1 : Z) m2 (e2 : Z) :
  (0 ≤ (SFdiv_core_binary prec emax (Zpos m1) e1 (Zpos m2) e2).1.1)%Z.
Proof.
  unfold SFdiv_core_binary.
  set (s := _ - _ - _).
  set (m' := match s with Zpos _ => _ | Z0 => _ | Zneg _ => _ end).
  assert (0 ≤ m') as Hm'.
  { unfold m'. destruct s; [lia| |lia]. by apply Z.shiftl_nonneg. }
  pose proof (Z_div_mod m' (Zpos m2) ltac:(lia)) as Hdiv.
  destruct (Z.div_eucl m' (Zpos m2)) as [q r]. simpl.
  destruct Hdiv as [Heq Hr]. nia.
Qed.

(** The quotient of two binary64 numbers is NaN exactly for the undefined
    ratios. *)
Lemma fdiv_nan x y : is_nan (fdiv x y) = ratio_undefined x y.
Proof.
  unfold fdiv. destruct x as [sx|sx| |sx mx ex], y as [sy|sy| |sy my ey]; try done.
  unfold SFdiv.
  pose proof (SFdiv_core_nonneg prec emax mx ex my ey) as Hq.
  destruct (SFdiv_core_binary prec emax (Zpos mx) ex (Zpos my) ey) as [[mz ez] lz].
  by apply binary_round_aux_not_nan.
Qed.

Lemma fmul_100_nan x : is_nan (fmul x (float_of_Z 100)) = is_nan x.
Proof.
  assert (∃ m e, float_of_Z 100 = S754_finite false m e) as (m & e & ->)
    by (by vm_compute; eauto).
  unfold fmul. destruct x as [sx|sx| |sx mx ex]; try done.
  by apply binary_round_aux_not_nan.
Qed.

Lemma cab_value_nan x y : is_nan (cab_value x y) = ratio_undefined x y.
Proof. unfold cab_value. by rewrite fmul_100_nan, fdiv_nan. Qed.

End Binary64.

(** X16. The reference value of leaf chlorophyll content is missing in
    exactly those rows of the in-situ table whose ratio is undefined: CCC
    or LAI is NaN, both are zero, or both are infinite. These, and only
    these, are the rows that dropping the missing [cab] values removes. *)
Theorem cab_missing_exactly_when_undefined lai_all ccc_all d r :
  insitu_cab lai_all ccc_all = Ok d →
  r ∈ rows d →
  ∃ x y,
    to_float (cell_at "ccc" r) = Some x ∧
    to_float (cell_at "lai" r) = Some y ∧
    isna (cell_at "cab" r) = ratio_undefined x y ∧
    ∀ d', dropna ["cab"] d = Ok d' →
          (r ∈ rows d' ↔ ratio_undefined x y = false).
Proof.
  intros [_ Hrows]%insitu_cab_rows Hr.
  rewrite Forall_forall in Hrows. destruct (Hrows r Hr) as (x & y & Hx & Hy & Hcab).
  exists x, y. split; [done|]. split; [done|].
  assert (isna (cell_at "cab" r) = ratio_undefined x y) as Hna.
  { rewrite Hcab, <- cab_value_nan. by destruct (cab_value x y). }
  split; [done|].
  intros d' [_ ->]%dropna_ok. cbn [rows].
  rewrite list_elem_of_filter, Is_true_true, complete_on_single, Hna. tauto.
Qed.

(** ** The [cab] columns of the inversion results *)

Lemma cab_loop_columns ccc_cols lai_cols idx inv inv' :
  (∀ i c, lai_cols !! i = Some c → ccc_cols !! (idx + i)%nat = Some (ccc_name c)) →
  Forall (λ c, PyStr.startswith "lai" c = true) lai_cols →
  cab_loop ccc_cols idx lai_cols inv = Ok inv' →
  (∀ c, c ∈ lai_cols → ccc_name c ∈ columns inv) ∧
  (∀ c, c ∈ columns inv' → c ∈ columns inv ∨ ∃ l, l ∈ lai_cols ∧ c = cab_name l) ∧
  nrows inv' = nrows inv.
Proof.
  revert idx inv. induction lai_cols as [|lc rest IH]; intros idx inv Hal Hst H.
  - simpl in H. injection H as <-. split; [|auto].
    intros c Hc. by apply not_elem_of_nil in Hc.
  - apply Forall_cons in Hst as [Hlc Hst]. cbn [cab_loop] in H.
    pose proof (Hal 0%nat lc eq_refl) as H0. rewrite Nat.add_0_r in H0.
    rewrite H0 in H. cbn [mbind result_bind] in H.
    apply result_bind_ok in H as (vc & Hvc & H).
    apply result_bind_ok in H as (vl & Hvl & H).
    apply result_bind_ok in H as (q & Hq & H).
    apply result_bind_ok in H as (cab & Hcab & H).
    apply result_bind_ok in H as (inv1 & Hset & H).
    pose proof (setitem_nrows _ _ _ _ Hset) as Hn1.
    apply setitem_ok in Hset as (_ & Hc1 & _).
    apply IH in H as (Hccc & Hnew & Hn); [|
      intros i c Hi; replace (S idx + i)%nat with (idx + S i)%nat by lia;
      by apply (Hal (S i))|done].
    split; [|split].
    + intros c [->|Hc]%elem_of_cons; [by apply getitem_ok in Hvc as [? _]|].
      specialize (Hccc c Hc). rewrite Hc1 in Hccc.
      apply with_column_inv in Hccc as [Heq|?]; [|done].
      rewrite Forall_forall in Hst.
      destruct (cab_name_fresh lc c Hlc (Hst c Hc)) as [_ Hne]. by destruct Hne.
    + intros c Hc. apply Hnew in Hc as [Hc|(l & Hl & ->)].
      * rewrite Hc1 in Hc. apply with_column_inv in Hc as [->|?]; [|auto].
        right. exists lc. split; [apply list_elem_of_here|done].
      * right. exists l. split; [by apply list_elem_of_further|done].
    + congruence.
Qed.

Lemma inversion_cab_aligned inv i c :
  lai_columns inv !! i = Some c →
  (ccc_name <$> lai_columns inv) !! (0 + i)%nat = Some (ccc_name c).
Proof. intros Hi. simpl. by rewrite list_lookup_fmap, Hi. Qed.

Lemma lai_columns_start inv :
  Forall (λ c, PyStr.startswith "lai" c = true) (lai_columns inv).
Proof.
  apply Forall_forall. intros c Hc. by apply lai_columns_startswith in Hc as [? _].
Qed.

(** X17. The [cab] columns of the inversion results can only be derived
    when every column whose label starts with [lai] has its [ccc]
    counterpart, the label with every [lai] replaced by [ccc], among the
    columns. *)
Theorem inversion_cab_needs_ccc_columns inv inv' :
  inversion_cab inv = Ok inv' →
  ∀ c, c ∈ lai_columns inv → ccc_name c ∈ columns inv.
Proof.
  unfold inversion_cab. intros H.
  by apply cab_loop_columns in H as (? & _);
    [|apply inversion_cab_aligned|apply lai_columns_start].
Qed.

(** X18. Deriving the [cab] columns changes nothing else: the table keeps
    its rows and its columns, every new column is the [cab] counterpart of
    a [lai] column, and no value under any other label is touched; in
    particular the [lai] and [ccc] columns are as before. Without a [lai]
    column the table stays as it is. *)
Theorem inversion_cab_only_adds_cab_columns inv inv' :
  inversion_cab inv = Ok inv' →
  nrows inv' = nrows inv ∧
  (∀ c, c ∈ columns inv → c ∈ columns inv') ∧
  (∀ c, c ∈ columns inv' →
        c ∈ columns inv ∨ ∃ l, l ∈ lai_columns inv ∧ c = cab_name l) ∧
  Forall2 (λ r r',
             (∀ k, (∀ c, c ∈ lai_columns inv → cab_name c ≠ k) → r' !! k = r !! k) ∧
             (∀ c, c ∈ lai_columns inv →
                   r' !! c = r !! c ∧ r' !! ccc_name c = r !! ccc_name c))
    (rows inv) (rows inv') ∧
  (lai_columns inv = [] → inv' = inv).
Proof.
  unfold inversion_cab. intros H.
  pose proof H as (_ & Hnew & Hn)%cab_loop_columns;
    [|apply inversion_cab_aligned|apply lai_columns_start].
  pose proof H as (Hmono & _ & Hrows)%cab_loop_ok;
    [|apply inversion_cab_aligned|apply lai_columns_start].
  split; [done|]. split; [done|]. split; [done|]. split.
  - eapply Forall2_impl; [exact Hrows|]. intros r r' [Hkeep _]. split; [done|].
    intros c Hc. pose proof (lai_columns_start inv) as Hst.
    rewrite Forall_forall in Hst.
    split; apply Hkeep; intros c' Hc';
      by destruct (cab_name_fresh c' c (Hst c' Hc') (Hst c Hc)).
  - intros Hnil. rewrite Hnil in H. simpl in H. by injection H.
Qed.

(** ** Grouping by macro stage *)

Lemma filter_ext_in {A} (P1 P2 : A → Prop)
    `{!∀ x, Decision (P1 x), !∀ x, Decision (P2 x)} (l : list A) :
  (∀ x, x ∈ l → P1 x ↔ P2 x) → filter P1 l = filter P2 l.
Proof.
  induction l as [|x l IH]; intros Hext; [done|].
  rewrite !filter_cons, IH by (intros y Hy; apply Hext; by apply list_elem_of_further).
  pose proof (Hext x (list_elem_of_here x l)).
  destruct (decide (P1 x)), (decide (P2 x)); tauto || done.
Qed.

Lemma select_concat_skip (by_ : string) (r : row) (l : list row) (keys : list cell) :
  cell_at by_ r ∉ keys →
  (λ k, filter (λ r', cell_at by_ r' = k) (r :: l)) <$> keys
  = (λ k, filter (λ r', cell_at by_ r' = k) l) <$> keys.
Proof.
  intros Hk. apply list_fmap_ext. intros i k Hi.
  rewrite filter_cons_False; [done|].
  intros Heq. apply Hk. rewrite Heq. by eapply list_elem_of_lookup_2.
Qed.

Lemma select_concat_cons (by_ : string) (r : row) (l : list row) (keys : list cell) :
  NoDup keys → cell_at by_ r ∈ keys →
  concat ((λ k, filter (λ r', cell_at by_ r' = k) (r :: l)) <$> keys)
  ≡ₚ r :: concat ((λ k, filter (λ r', cell_at by_ r' = k) l) <$> keys).
Proof.
  induction keys as [|k keys IH]; intros Hnd Hin; [by apply not_elem_of_nil in Hin|].
  apply NoDup_cons in Hnd as [Hk Hnd]. rewrite !fmap_cons. cbn [concat].
  destruct (decide (cell_at by_ r = k)) as [Heq|Hne].
  - rewrite filter_cons_True by done. cbn [app].
    rewrite select_concat_skip by (by rewrite Heq). done.
  - rewrite filter_cons_False by done.
    apply elem_of_cons in Hin as [?|Hin]; [done|].
    rewrite (IH Hnd Hin). by rewrite Permutation_middle.
Qed.

(** The rows of the groups of distinct keys, taken together, are the rows
    whose key is among them. *)
Lemma groups_partition (by_ : string) (l : list row) (keys : list cell) :
  NoDup keys →
  concat ((λ k, filter (λ r, cell_at by_ r = k) l) <$> keys)
  ≡ₚ filter (λ r, cell_at by_ r ∈ keys) l.
Proof.
  intros Hnd. induction l as [|r l IH].
  - rewrite filter_nil. induction keys as [|k keys IHk]; [done|].
    rewrite fmap_cons. cbn [concat]. rewrite filter_nil.
    apply IHk. by apply NoDup_cons in Hnd as [_ ?].
  - destruct (decide (cell_at by_ r ∈ keys)) as [Hin|Hout].
    + rewrite filter_cons_True by done. rewrite select_concat_cons by done.
      by rewrite IH.
    + rewrite filter_cons_False by done. by rewrite select_concat_skip.
Qed.

Lemma fmap_fst_pair {A B} (g : A → B) (l : list A) :
  ((λ k, (k, g k)) <$> l).*1 = l.
Proof. induction l as [|x l IH]; csimpl; [done|]. by rewrite IH. Qed.

(** X19. Iterating the groups of line 99 visits every row that has a macro
    stage exactly once: the keys are distinct and none is missing, no group
    is empty, the rows of a group are those of its key, and the groups
    taken together are, up to order, the rows whose key is not missing.
    Rows without a macro stage count in the full-sample metrics but in no
    stage. *)
Theorem stage_groups_partition by_ d gs :
  groupby by_ d = Ok gs →
  NoDup gs.*1 ∧
  Forall (λ kg, isna kg.1 = false ∧
                columns kg.2 = columns d ∧
                rows kg.2 ≠ [] ∧
                ∀ r, r ∈ rows kg.2 ↔ r ∈ rows d ∧ cell_at by_ r = kg.1) gs ∧
  concat ((rows ∘ snd) <$> gs)
  ≡ₚ filter (λ r, isna (cell_at by_ r) = false) (rows d).
Proof.
  intros (vals & [Hby ->]%getitem_ok & ->)%groupby_ok.
  set (keys := group_keys (cell_at by_ <$> rows d)).
  assert (∀ k, k ∈ keys ↔ (∃ r, r ∈ rows d ∧ cell_at by_ r = k) ∧ isna k = false)
    as Hkeys.
  { intros k. unfold keys. rewrite elem_of_group_keys, list_elem_of_fmap.
    split; intros [(r & ? & ?) ?]; split; eauto. }
  split; [|split].
  - rewrite fmap_fst_pair. apply group_keys_NoDup.
  - apply Forall_fmap, Forall_forall. intros k Hk. cbn.
    apply Hkeys in Hk as [(r & Hr & Hrk) Hna].
    split; [done|]. split; [done|]. split.
    + intros Hnil.
      assert (r ∈ filter (λ r, cell_at by_ r = k) (rows d)) as Hin
        by (by apply list_elem_of_filter).
      rewrite Hnil in Hin. by apply not_elem_of_nil in Hin.
    + intros r'. rewrite list_elem_of_filter. tauto.
  - rewrite <- list_fmap_compose.
    change (concat ((λ k, filter (λ r, cell_at by_ r = k) (rows d)) <$> keys)
            ≡ₚ filter (λ r, isna (cell_at by_ r) = false) (rows d)).
    rewrite groups_partition by apply group_keys_NoDup.
    erewrite filter_ext_in; [reflexivity|]. intros r Hr. cbv beta.
    rewrite Hkeys. split; [tauto|]. intros Hna. split; [by exists r|done].
Qed.

(** ** The script as a whole *)

Section MainFacts.

Variable plot_prediction :
  list cell → list cell → string → string → TraitLimits → result row.
Variable assign_macro_stages : cell → result cell.
Variable bbch_confusion_matrix :
  DataFrame → string → result (DataFrame * list string).
Variable join_with_insitu :
  DataFrame → DataFrame → DataFrame → list string → result DataFrame.
Variable repr_float : spec_float → string.
Variable read_file : string → result DataFrame.
Variable read_csv : string → result DataFrame.

Abbreviation main' :=
  (main plot_prediction assign_macro_stages bbch_confusion_matrix
     join_with_insitu repr_float read_file read_csv).

Lemma load_year_ok year t :
  load_year repr_float read_file year = Ok t →
  is_ok (read_file (fpath_insitu_lai year)) = true ∧
  is_ok (read_file (fpath_insitu_ccc year)) = true.
Proof.
  unfold load_year. intros H.
  apply result_bind_ok in H as (lai & -> & H).
  apply result_bind_ok in H as (lai' & _ & H).
  apply result_bind_ok in H as (ccc & -> & _). done.
Qed.

(** X20. When one of the five files of in-situ measurements cannot be
    read, the script ends in an exception before it has created a
    directory or written a file. *)
Theorem unreadable_input_writes_nothing path e w :
  path ∈ insitu_files →
  read_file path = Err e →
  ∃ e', main' w = (w, Err e').
Proof.
  intros Hin Hp. unfold main. rewrite bind_run. cbn [lift].
  destruct (traverse _ years) as [tables|e1] eqn:E; [|by exists e1].
  rewrite bind_run. cbn [lift].
  destruct (read_file fpath_insitu_bbch) as [bbch|e2] eqn:Eb; [|by exists e2].
  exfalso. apply traverse_ok in E. unfold years in E.
  apply Forall2_cons_inv_l in E as (t1 & ts & [H1 H1']%load_year_ok & E & _).
  apply Forall2_cons_inv_l in E as (t2 & ts' & [H2 H2']%load_year_ok & _ & _).
  unfold insitu_files, years in Hin. cbn [mbind list_bind app] in Hin.
  repeat (apply elem_of_cons in Hin as [->|Hin]);
    [rewrite Hp in *; discriminate..|by apply not_elem_of_nil in Hin].
Qed.

Lemma process_trait_files dir lai_all ccc_all bbch inv_ref trait w w' inv :
  heap w !! inv_ref = Some inv →
  process_trait plot_prediction assign_macro_stages bbch_confusion_matrix
    join_with_insitu dir lai_all ccc_all bbch inv_ref trait w = (w', Ok tt) →
  ∃ evs artifacts,
    trace w' = trace w ++ evs ∧
    omap written_path evs = trait_files dir trait ++ artifacts.
Proof.
  intros Hinv E.
  destruct (trait_tables lai_all ccc_all inv trait) as [[insitu inv']|e] eqn:Ht.
  2: { pose proof (process_trait_tables_err plot_prediction assign_macro_stages
         bbch_confusion_matrix join_with_insitu dir _ _ bbch _ _ _ _ _ Hinv Ht) as He.
       rewrite E in He. discriminate. }
  destruct (join_with_insitu insitu bbch inv' [trait]) as [joined|e] eqn:Hj.
  2: { pose proof (process_trait_join_err plot_prediction assign_macro_stages
         bbch_confusion_matrix join_with_insitu dir _ _ bbch _ _ _ _ _ _ _
         Hinv Ht Hj) as He.
       rewrite E in He. discriminate. }
  destruct (process_trait_run plot_prediction assign_macro_stages
              bbch_confusion_matrix join_with_insitu dir _ _ _ _ _ _ _ _ _ _
              Hinv Ht Hj) as (cfg & _ & Hrun).
  rewrite Hrun in E.
  apply (validate_data_events _ _ _ _ _ _ _ _ _ _ _ joined) in E
    as (sa & sp & stats1 & stats2 & d2 & d3 & artifacts & keys &
        _ & _ & _ & _ & _ & Htr).
  - cbn [trace] in Htr. eexists _, artifacts. split.
    + rewrite Htr, <- app_assoc. reflexivity.
    + rewrite omap_app, omap_written_validation. reflexivity.
  - cbn [heap]. rewrite <- (length_insert (heap w) inv_ref inv').
    apply lookup_snoc.
Qed.

Lemma validate_sub_dir_files lai_all ccc_all bbch sub_dir w w' :
  validate_sub_dir plot_prediction assign_macro_stages bbch_confusion_matrix
    join_with_insitu read_csv lai_all ccc_all bbch sub_dir w = (w', Ok tt) →
  ∃ evs artifacts,
    trace w' = trace w ++ evs ∧
    omap written_path evs
    = trait_files (joinpath inv_res_dir sub_dir) "cab" ++ artifacts.
Proof.
  unfold validate_sub_dir, traits. rewrite bind_run. cbn [lift].
  destruct (read_csv _) as [inv|e]; [|done].
  rewrite bind_run. cbn [alloc for_each]. rewrite bind_run.
  destruct (process_trait _ _ _ _ _ _ _ _ _ _ _) as [w1 [[]|e]] eqn:E; [|done].
  intros [= <-].
  apply (process_trait_files _ _ _ _ _ _ _ _ inv) in E; [done|].
  cbn [heap]. apply lookup_snoc.
Qed.

(** X21. A run of the script that ends normally has written, for the
    inversion results of [agdds_and_s2] and then for those of [agdds_only],
    the joined table followed by the six files of [validate_data], each
    under the directory [validation_cab] of those results, and by what the
    confusion matrix builder wrote; no other file is written. *)
Theorem complete_run_files w w' :
  main' w = (w', Ok tt) →
  ∃ evs artifacts1 artifacts2,
    trace w' = trace w ++ evs ∧
    omap written_path evs
    = trait_files (joinpath inv_res_dir "agdds_and_s2") "cab" ++ artifacts1
      ++ trait_files (joinpath inv_res_dir "agdds_only") "cab" ++ artifacts2.
Proof.
  unfold main. rewrite bind_run. cbn [lift].
  destruct (traverse _ years) as [tables|e1]; [|done].
  rewrite bind_run. cbn [lift].
  destruct (read_file fpath_insitu_bbch) as [bbch|e2]; [|done].
  unfold sub_dirs. cbn [for_each]. rewrite bind_run.
  destruct (validate_sub_dir _ _ _ _ _ _ _ _ "agdds_and_s2" w)
    as [w1 [[]|e]] eqn:E1; [|done].
  rewrite bind_run.
  destruct (validate_sub_dir _ _ _ _ _ _ _ _ "agdds_only" w1)
    as [w2 [[]|e]] eqn:E2; [|done].
  intros [= <-].
  apply validate_sub_dir_files in E1 as (evs1 & a1 & Ht1 & Hf1).
  apply validate_sub_dir_files in E2 as (evs2 & a2 & Ht2 & Hf2).
  exists (evs1 ++ evs2), a1, a2. split.
  - by rewrite Ht2, Ht1, <- app_assoc.
  - by rewrite omap_app, Hf1, Hf2, <- !app_assoc.
Qed.

End MainFacts.

(** ** The in-situ table of leaf chlorophyll content, continued *)




Section SentinelKeys.

Variable repr_float : spec_float → string.

Lemma patch_lai_rows lai lai' :
  patch_lai repr_float 2019 lai = Ok lai' →
  rows lai' = lai_patch repr_float <$> rows lai.
Proof.
  intros H. destruct (patch_lai_needs _ _ _ H) as [HP HF].
  destruct (patch_lai_2019 repr_float lai HP HF) as (cols & Heq & _).
  rewrite Heq in H. by injection H as <-.
Qed.

Lemma patch_ccc_rows ccc ccc' :
  patch_ccc repr_float 2019 ccc = Ok ccc' →
  rows ccc' = ccc_patch repr_float <$> rows ccc.
Proof.
  intros H. destruct (patch_ccc_needs _ _ _ H) as (HP & HF & HC).
  destruct (patch_ccc_2019 repr_float ccc HP HF HC) as (cols & Heq & _).
  rewrite Heq in H. by injection H as <-.
Qed.

Lemma lai_patch_key (r : row) :
  key_of insitu_keys (lai_patch repr_float r)
  = [point_id_of repr_float (cell_at "Plot" r); CInt 999; cell_at "field" r;
     CStr "SwissFutureFarm"].
Proof.
  unfold key_of, insitu_keys, lai_patch. cbn [fmap list_fmap].
  by repeat first [rewrite cell_at_insert | rewrite cell_at_insert_ne by done].
Qed.

Lemma ccc_patch_key (r : row) :
  key_of insitu_keys (ccc_patch repr_float r)
  = key_of insitu_keys (lai_patch repr_float r).
Proof.
  unfold key_of, insitu_keys, ccc_patch. cbn [fmap list_fmap].
  by repeat first [rewrite cell_at_insert | rewrite cell_at_insert_ne by done].
Qed.

(** X23. Every record of 2019 gets the same sentinel for the growing
    degree days and the same location, so a LAI record and a CCC record of
    2019 agree on the four merge keys exactly when their fields are equal
    and their plot labels have the same point identifier: neither the date
    nor the rest of the plot label tells them apart. *)
Theorem sentinel_keys_2019 lai ccc lai' ccc' i j l r l' r' :
  patch_lai repr_float 2019 lai = Ok lai' →
  patch_ccc repr_float 2019 ccc = Ok ccc' →
  rows lai !! i = Some l → rows lai' !! i = Some l' →
  rows ccc !! j = Some r → rows ccc' !! j = Some r' →
  key_of insitu_keys r' = key_of insitu_keys l' ↔
  point_id_of repr_float (cell_at "Plot" r)
    = point_id_of repr_float (cell_at "Plot" l) ∧
  cell_at "field" r = cell_at "field" l.
Proof.
  intros Hl%patch_lai_rows Hc%patch_ccc_rows Hi Hi' Hj Hj'.
  rewrite Hl, list_lookup_fmap, Hi in Hi'. injection Hi' as <-.
  rewrite Hc, list_lookup_fmap, Hj in Hj'. injection Hj' as <-.
  rewrite ccc_patch_key, !lai_patch_key. split.
  - intros Heq. split.
    + by apply (f_equal (λ k, default CNone (k !! 0%nat))) in Heq.
    + by apply (f_equal (λ k, default CNone (k !! 2%nat))) in Heq.
  - by intros [-> ->].
Qed.

End SentinelKeys.

(** ** The further properties on the test tables *)

Import Cases.

Lemma lookup_default_in {A} (d : A) (l : list A) i :
  (i < length l)%nat → default d (l !! i) ∈ l.
Proof.
  intros Hi. destruct (lookup_lt_is_Some_2 l i Hi) as [x Hx]. rewrite Hx.
  by eapply list_elem_of_lookup_2.
Qed.

Lemma lookup_default_some {A} (d : A) (l : list A) i :
  (i < length l)%nat → l !! i = Some (default d (l !! i)).
Proof.
  intros Hi. by destruct (lookup_lt_is_Some_2 l i Hi) as [x ->].
Qed.

(** A run is the pair of the state it leaves and its result. *)
Lemma run_result {A} (x : world * result A) (a : A) :
  x.2 = Ok a → x = (x.1, Ok a).
Proof. destruct x as [w r]. simpl. by intros ->. Qed.

Lemma patch_2019_missing_column_witness :
  patch_lai fixed_repr 2019 no_bbch = Err (AttributeError "Plot") ∧
  patch_ccc fixed_repr 2019 raw_lai = Err (KeyError "CCC [g/m2]").
Proof.
  split.
  - apply (proj1 (patch_2019_missing_column fixed_repr no_bbch raw_lai)).
    unfold no_bbch. cbn [columns]. not_in_list.
  - apply (proj2 (proj2 (proj2 (proj2
             (patch_2019_missing_column fixed_repr no_bbch raw_lai)))));
      unfold raw_lai; cbn [columns]; first [not_in_list | in_list].
Defined.


Lemma validate_data_missing_trait_witness :
  (validate_in no_bbch "cab").2 = Err (KeyError "cab") ∧
  trace (validate_in no_bbch "cab").1 = [].
Proof.
  apply (validate_data_missing_trait count_pairs keep_rating one_matrix
           0 "out" "cab" "Leaf Chlorophyll Content" "ug/cm2" limits
           (start no_bbch) no_bbch).
  - reflexivity.
  - unfold no_bbch. cbn [columns]. not_in_list.
Defined.

Lemma missing_bbch_keeps_full_sample_witness :
  (validate_in no_rating "cab").2 = Err (KeyError "BBCH Rating") ∧
  trace (validate_in no_rating "cab").1 =
    [] ++ full_sample_events (working_frame "cab" no_rating) "out" "cab"
            {[ "n" := CInt 1 ]} {[ "n" := CInt 1 ]}.
Proof.
  apply (missing_bbch_keeps_full_sample count_pairs keep_rating one_matrix
           0 "out" "cab" "Leaf Chlorophyll Content" "ug/cm2" limits
           (start no_rating) no_rating {[ "n" := CInt 1 ]} {[ "n" := CInt 1 ]}).
  - reflexivity.
  - vm_compute. in_list.
  - vm_compute. in_list.
  - vm_compute. in_list.
  - vm_compute. reflexivity.
  - vm_compute. reflexivity.
  - unfold no_rating. cbn [columns]. not_in_list.
Defined.

Lemma validation_files_in_order_witness :
  ∃ evs d2 d3 artifacts,
    trace (validate two_stages).1 = [] ++ evs ∧
    one_matrix d2 "out" = Ok (d3, artifacts) ∧
    omap written_path evs = validation_files "out" "cab" ++ artifacts.
Proof.
  apply (validation_files_in_order count_pairs keep_rating one_matrix
           0 "out" "cab" "Leaf Chlorophyll Content" "ug/cm2" limits
           (start two_stages) (validate two_stages).1 two_stages).
  - reflexivity.
  - vm_compute. reflexivity.
Defined.

Lemma metric_requests_and_table_sizes_witness :
  ∃ evs,
    trace (validate two_stages).1 = [] ++ evs ∧
    length (filter (λ e, is_metric_request e = true) evs)
      = (2 + 2 * stage_count "cab" two_stages)%nat ∧
    ∀ path index table, StatsCsv path index table ∈ evs →
      length table = if index then 2%nat else stage_count "cab" two_stages.
Proof.
  apply (metric_requests_and_table_sizes count_pairs keep_rating one_matrix
           0 "out" "cab" "Leaf Chlorophyll Content" "ug/cm2" limits
           (start two_stages) (validate two_stages).1 two_stages).
  - reflexivity.
  - vm_compute. reflexivity.
Defined.

Lemma few_stages_exception_witness :
  (∃ msg, (validate one_stage).2 =
            Err (match stage_count "cab" one_stage with
                 | O => ValueError msg
                 | _ => TypeError msg
                 end)) ∧
  trace (validate one_stage).1 =
    [] ++ full_sample_events (working_frame "cab" one_stage) "out" "cab"
            {[ "n" := CInt 2 ]} {[ "n" := CInt 2 ]}.
Proof.
  apply (few_stages_exception count_pairs keep_rating one_matrix
           0 "out" "cab" "Leaf Chlorophyll Content" "ug/cm2" limits
           (start one_stage) one_stage {[ "n" := CInt 2 ]} {[ "n" := CInt 2 ]}
           (cell_at "BBCH Rating" <$> kept_rows "cab" one_stage)).
  - reflexivity.
  - vm_compute. repeat constructor; in_list.
  - vm_compute. reflexivity.
  - vm_compute. reflexivity.
  - vm_compute. reflexivity.
  - vm_compute. lia.
Defined.

Lemma unknown_trait_fails_after_mkdir_witness :
  run_trait_on "biomass" =
  (World (heap (start inv_res))
         ([] ++ [Mkdir (joinpath "results" ("validation_" +:+ "biomass"))]),
   Err (KeyError "biomass")).
Proof.
  apply (unknown_trait_fails_after_mkdir count_pairs keep_rating one_matrix
           join_with_insitu_spec "results" lai_2019 ccc_2019 no_bbch 0 "biomass"
           (start inv_res) inv_res).
  - reflexivity.
  - not_in_list.
Defined.

Lemma inversion_table_extended_in_place_witness :
  heap (run_trait_on "cab").1 !! 0%nat = Some inv_res_cab ∧
  (∀ ref d, ref ≠ 0%nat → heap (start inv_res) !! ref = Some d →
     heap (run_trait_on "cab").1 !! ref = Some d) ∧
  ("cab" ≠ "cab" → inv_res_cab = inv_res) ∧
  ("cab" = "cab" → inversion_cab inv_res = Ok inv_res_cab).
Proof.
  apply (inversion_table_extended_in_place count_pairs keep_rating one_matrix
           join_with_insitu_spec "results" lai_2019 ccc_2019 no_bbch 0 "cab"
           (start inv_res) inv_res insitu_2019 inv_res_cab).
  - reflexivity.
  - vm_compute. reflexivity.
Defined.

Lemma joined_table_saved_first_witness :
  ∃ rest,
    trace (run_trait_on "cab").1 =
    []
    ++ [Mkdir (joinpath "results" ("validation_" +:+ "cab"));
        FrameCsv (joinpath (joinpath "results" ("validation_" +:+ "cab"))
                    ("inv_res_joined_with_insitu_" +:+ "cab" +:+ ".csv"))
          joined_2019]
    ++ rest.
Proof.
  apply (joined_table_saved_first count_pairs keep_rating one_matrix
           join_with_insitu_spec "results" lai_2019 ccc_2019 no_bbch 0 "cab"
           (start inv_res) inv_res insitu_2019 inv_res_cab joined_2019).
  - reflexivity.
  - vm_compute. reflexivity.
  - vm_compute. reflexivity.
Defined.

Lemma insitu_cab_requires_witness :
  Forall (λ k, k ∈ columns lai_2019 ∧ k ∈ columns ccc_2019) insitu_keys ∧
  (("ccc" ∈ columns lai_2019 ∧ "ccc" ∉ columns ccc_2019) ∨
   ("ccc" ∈ columns ccc_2019 ∧ "ccc" ∉ columns lai_2019)) ∧
  (no_suffixed_labels lai_2019 → no_suffixed_labels ccc_2019 →
   Forall (λ c, c ∈ columns lai_2019 ∧ c ∈ columns ccc_2019) ["date"; "lai"]).
Proof.
  apply (insitu_cab_requires lai_2019 ccc_2019 insitu_2019).
  vm_compute. reflexivity.
Defined.

Lemma insitu_cab_pairs_whatever_the_dates_witness :
  cell_at "date" first_lai ≠ cell_at "date" second_ccc ∧
  ∃ m, m ∈ rows insitu_2019 ∧
       (∀ k, k ∈ insitu_keys → cell_at k m = cell_at k first_lai) ∧
       cell_at "date" m = cell_at "date" first_lai ∧
       cell_at "lai" m = cell_at "lai" first_lai ∧
       cell_at "ccc" m = cell_at "ccc" second_ccc ∧
       Forall (λ c, m !! c = None) ["date_x"; "date_y"; "lai_x"; "lai_y"].
Proof.
  split; [by vm_compute|].
  apply (insitu_cab_pairs_whatever_the_dates lai_2019 ccc_2019 insitu_2019
           first_lai second_ccc).
  - vm_compute. reflexivity.
  - split; vm_compute; not_in_list.
  - split; vm_compute; not_in_list.
  - vm_compute. not_in_list.
  - apply lookup_default_in. vm_compute. lia.
  - apply lookup_default_in. vm_compute. lia.
  - vm_compute. reflexivity.
Defined.

Lemma cab_missing_exactly_when_undefined_witness :
  ∃ x y,
    to_float (cell_at "ccc" zero_lai_row) = Some x ∧
    to_float (cell_at "lai" zero_lai_row) = Some y ∧
    isna (cell_at "cab" zero_lai_row) = ratio_undefined x y ∧
    ∀ d', dropna ["cab"] insitu_2019 = Ok d' →
          (zero_lai_row ∈ rows d' ↔ ratio_undefined x y = false).
Proof.
  apply (cab_missing_exactly_when_undefined lai_2019 ccc_2019 insitu_2019
           zero_lai_row).
  - vm_compute. reflexivity.
  - apply head_default_in. vm_compute. lia.
Defined.

Lemma inversion_cab_needs_ccc_columns_witness :
  Forall (λ c, ccc_name c ∈ columns inv_res) (lai_columns inv_res).
Proof.
  apply Forall_forall.
  apply (inversion_cab_needs_ccc_columns inv_res inv_res_cab).
  vm_compute. reflexivity.
Defined.

Lemma inversion_cab_only_adds_cab_columns_witness :
  nrows inv_res_cab = nrows inv_res ∧
  (∀ c, c ∈ columns inv_res → c ∈ columns inv_res_cab) ∧
  (∀ c, c ∈ columns inv_res_cab →
        c ∈ columns inv_res ∨ ∃ l, l ∈ lai_columns inv_res ∧ c = cab_name l) ∧
  Forall2 (λ r r',
             (∀ k, (∀ c, c ∈ lai_columns inv_res → cab_name c ≠ k) →
                   r' !! k = r !! k) ∧
             (∀ c, c ∈ lai_columns inv_res →
                   r' !! c = r !! c ∧ r' !! ccc_name c = r !! ccc_name c))
    (rows inv_res) (rows inv_res_cab) ∧
  (lai_columns inv_res = [] → inv_res_cab = inv_res).
Proof.
  apply (inversion_cab_only_adds_cab_columns inv_res inv_res_cab).
  vm_compute. reflexivity.
Defined.

Lemma stage_groups_partition_witness :
  NoDup stage_groups.*1 ∧
  Forall (λ kg, isna kg.1 = false ∧
                columns kg.2 = columns two_stages ∧
                rows kg.2 ≠ [] ∧
                ∀ r, r ∈ rows kg.2 ↔
                     r ∈ rows two_stages ∧ cell_at "Macro-Stage" r = kg.1)
    stage_groups ∧
  concat ((rows ∘ snd) <$> stage_groups)
  ≡ₚ filter (λ r, isna (cell_at "Macro-Stage" r) = false) (rows two_stages).
Proof.
  apply (stage_groups_partition "Macro-Stage" two_stages stage_groups).
  vm_compute. reflexivity.
Defined.

Lemma unreadable_input_writes_nothing_witness :
  ∃ e', run_main (files_without (fpath_insitu_ccc 2022)) = (nothing, Err e').
Proof.
  apply (unreadable_input_writes_nothing count_pairs keep_rating one_matrix
           join_with_insitu_spec fixed_repr
           (files_without (fpath_insitu_ccc 2022)) inversions
           (fpath_insitu_ccc 2022) (Raised "No such file") nothing).
  - vm_compute. in_list.
  - vm_compute. reflexivity.
Defined.

Lemma complete_run_files_witness :
  ∃ evs artifacts1 artifacts2,
    trace (run_main files).1 = [] ++ evs ∧
    omap written_path evs
    = trait_files (joinpath inv_res_dir "agdds_and_s2") "cab" ++ artifacts1
      ++ trait_files (joinpath inv_res_dir "agdds_only") "cab" ++ artifacts2.
Proof.
  apply (complete_run_files count_pairs keep_rating one_matrix
           join_with_insitu_spec fixed_repr files inversions
           nothing (run_main files).1).
  apply run_result. vm_compute. reflexivity.
Defined.


Lemma sentinel_keys_2019_witness :
  key_of insitu_keys second_ccc = key_of insitu_keys first_lai ↔
  point_id_of fixed_repr (cell_at "Plot" raw_second_ccc)
    = point_id_of fixed_repr (cell_at "Plot" raw_first_lai) ∧
  cell_at "field" raw_second_ccc = cell_at "field" raw_first_lai.
Proof.
  apply (sentinel_keys_2019 fixed_repr raw_lai raw_ccc lai_2019 ccc_2019
           0%nat 1%nat raw_first_lai raw_second_ccc first_lai second_ccc).
  - vm_compute. reflexivity.
  - vm_compute. reflexivity.
  - apply lookup_default_some. vm_compute. lia.
  - apply lookup_default_some. vm_compute. lia.
  - apply lookup_default_some. vm_compute. lia.
  - apply lookup_default_some. vm_compute. lia.
Defined.
